(** * Dependency readiness, task queries and project colours of the
    agent-tools dashboard, embedded from the TypeScript and JavaScript
    sources and checked against the specification.

    Layout: the data model and the embedded functions come first, one module
    per source file; then the vocabulary of the specification and the
    concrete inputs used as examples; then the properties. *)

From stdpp Require Import base strings list gmap sorting pretty.
From Stdlib Require Import ZArith Ascii.

Open Scope string_scope.
Open Scope Z_scope.

(** ** Data model *)

(** A dependency reference as [lib/beads.js] builds it from a row of the
    [dependencies] table LEFT JOINed with [issues]: [title], [status] and
    [priority] are NULL when the referenced issue does not exist. *)
Record DepRef := mkDepRef {
  dep_id : string;
  dep_type : string;
  dep_title : option string;
  dep_status : option string;
  dep_priority : option Z
}.

(** A comment row as selected; [created_at] is the text the database
    stores. *)
Record Comment := mkComment {
  comment_id : Z;
  comment_author : string;
  comment_text : string;
  comment_created_at : string
}.

(** A task object. [getTasks] sets [depends_on] and [blocked_by];
    [getTaskById] sets [depends_on], [dependents] and [comments]; a field
    that was never set is [None] (JavaScript [undefined]).  [created_at] is
    held as the time value that [new Date(created_at)] yields. *)
Record Task := mkTask {
  id : string;
  title : string;
  description : string;
  status : string;
  priority : Z;
  created_at : Z;
  assignee : option string;
  project : string;
  project_path : string;
  labels : list string;
  depends_on : option (list DepRef);
  blocked_by : option (list DepRef);
  dependents : option (list DepRef);
  comments : option (list Comment)
}.

(** [dep.status !== 'closed'] *)
Definition not_closed (dep : DepRef) : bool :=
  negb (bool_decide (dep_status dep = Some "closed")).

(** [arr || []] for an optional array: an array, even an empty one, is
    truthy. *)
Definition or_empty {A} (o : option (list A)) : list A := default [] o.

(** ** dashboard/src/lib/utils/dependencyUtils.ts *)
Module DependencyUtils.

Record DependencyStatus := mkDependencyStatus {
  hasBlockers : bool;
  hasBlockedTasks : bool;
  blockerCount : nat;
  blockedCount : nat;
  unresolvedBlockers : list DepRef;
  blockedTasks : list DepRef;
  canBeAssigned : bool;
  blockingReason : option string
}.

(** [n === 1 ? 'task' : 'tasks'] *)
Definition task_word (n : nat) : string :=
  if bool_decide (n = 1%nat) then "task" else "tasks".

Definition analyzeDependencies (task : Task) : DependencyStatus :=
  let unresolvedBlockers := filter (λ dep, not_closed dep = true) (or_empty (depends_on task)) in
  let blockedTasks := or_empty (blocked_by task) in
  let hasBlockers := bool_decide (0 < length unresolvedBlockers)%nat in
  let canBeAssigned := negb hasBlockers in
  let blockingReason :=
    if hasBlockers
    then Some ("Blocked by " +:+ pretty (length unresolvedBlockers) +:+ " unresolved "
               +:+ task_word (length unresolvedBlockers))
    else None in
  {| hasBlockers := hasBlockers;
     hasBlockedTasks := bool_decide (0 < length blockedTasks)%nat;
     blockerCount := length unresolvedBlockers;
     blockedCount := length blockedTasks;
     unresolvedBlockers := unresolvedBlockers;
     blockedTasks := blockedTasks;
     canBeAssigned := canBeAssigned;
     blockingReason := blockingReason |}.

Record Badge := mkBadge {
  show : bool;
  text : string;
  color : string;
  icon : string;
  tooltip : string
}.

Definition error_badge (n : nat) : Badge :=
  {| show := true;
     text := "🚫 " +:+ pretty n;
     color := "badge-error";
     icon := "🚫";
     tooltip := "Blocked by " +:+ pretty n +:+ " " +:+ task_word n |}.

Definition warning_badge (n : nat) : Badge :=
  {| show := true;
     text := "⚠️ " +:+ pretty n;
     color := "badge-warning";
     icon := "⚠️";
     tooltip := "Blocking " +:+ pretty n +:+ " " +:+ task_word n |}.

Definition hidden_badge : Badge :=
  {| show := false; text := ""; color := ""; icon := ""; tooltip := "" |}.

Definition getDependencyBadge (depStatus : DependencyStatus) : Badge :=
  if hasBlockers depStatus then error_badge (blockerCount depStatus)
  else if hasBlockedTasks depStatus then warning_badge (blockedCount depStatus)
  else hidden_badge.

(** [allTasks.find(t => t.id === taskId)] *)
Definition find_task (allTasks : list Task) (taskId : string) : option Task :=
  snd <$> list_find (λ t, id t = taskId) allTasks.

Definition getAgentForTask (taskId : string) (allTasks : list Task) : option string :=
  match find_task allTasks taskId with
  | Some task =>
      match assignee task with
      | Some "" => None
      | a => a
      end
  | None => None
  end.

Record LevelEntry := mkLevelEntry {
  level : nat;
  entry_task : Task
}.

(** The result of one call: the chain it returns and the [visited] set as
    the call leaves it.  The set is one object shared by every recursive
    call, so it is threaded through. *)
Definition ChainState : Type := list LevelEntry * gset string.

(** [subChain.forEach(item => chain.push({level: item.level + 1, task: item.task}))] *)
Definition bump (item : LevelEntry) : LevelEntry :=
  {| level := level item + 1; entry_task := entry_task item |}.

(** The body of [task.depends_on.forEach], with the recursive call as a
    parameter. *)
Fixpoint forEach_dep (rec : Task → gset string → option ChainState)
    (allTasks : list Task) (deps : list DepRef) (st : ChainState) : option ChainState :=
  match deps with
  | [] => Some st
  | dep :: deps' =>
      match find_task allTasks (dep_id dep) with
      | Some blockerTask =>
          match rec blockerTask st.2 with
          | Some (subChain, visited') =>
              forEach_dep rec allTasks deps'
                ((st.1 ++ {| level := 1; entry_task := blockerTask |} :: (bump <$> subChain))%list,
                 visited')
          | None => None
          end
      | None => forEach_dep rec allTasks deps' st
      end
  end.

(** [buildDependencyChain], with the depth of the call stack bounded by
    [fuel]; [None] stands for a call stack that would grow past it. *)
Fixpoint buildDependencyChain (fuel : nat) (task : Task) (allTasks : list Task)
    (visited : gset string) : option ChainState :=
  match fuel with
  | O => None
  | S fuel' =>
      if decide (id task ∈ visited) then Some ([], visited)
      else
        let visited1 := {[id task]} ∪ visited in
        match depends_on task with
        | Some deps =>
            forEach_dep (λ blockerTask v, buildDependencyChain fuel' blockerTask allTasks v)
              allTasks deps ([], visited1)
        | None => Some ([], visited1)
        end
  end.

End DependencyUtils.

(** ** JavaScript primitives shared by the embedded files *)

(** [s.split(sep)] for a one-character separator: the segments between the
    occurrences of [sep]; the result of splitting the empty string is [[""]]. *)
Fixpoint split (sep : ascii) (s : string) : list string :=
  match s with
  | EmptyString => [""]
  | String c s' =>
      if Ascii.eqb c sep then "" :: split sep s'
      else match split sep s' with
           | seg :: segs => String c seg :: segs
           | [] => [String c ""]
           end
  end.

(** [ToInt32]: the signed 32-bit integer congruent to [z] modulo 2^32. *)
Definition ToInt32 (z : Z) : Z := (z + 2 ^ 31) mod 2 ^ 32 - 2 ^ 31.

(** [x << n] on Numbers holding integers. *)
Definition js_shl (x : Z) (n : Z) : Z := ToInt32 (Z.shiftl (ToInt32 x) n).

(** [s.charCodeAt(i)] for each [i], in order.  A string is held as its
    bytes, which are the UTF-16 code units of a JavaScript string made of
    characters below 256, as task identifiers are; the hash loop itself
    ([hash_step]) takes any code unit. *)
Definition charCodes (s : string) : list Z :=
  (λ c, Z.of_nat (nat_of_ascii c)) <$> String.list_ascii_of_string s.

(** SQLite's comparison of two TEXT values under the default BINARY
    collation: byte by byte, a proper prefix first; negative, zero or
    positive. *)
Definition text_compare (a b : string) : Z :=
  match String.compare a b with
  | Lt => -1
  | Eq => 0
  | Gt => 1
  end.

(** [Array.prototype.sort(comparefn)]: a stable sort; [x] stays ahead of the
    elements it does not compare greater than. *)
Section js_sort.
Context {A : Type} (comparefn : A → A → Z).

Fixpoint sort_insert (x : A) (l : list A) : list A :=
  match l with
  | [] => [x]
  | y :: l' => if comparefn x y <=? 0 then x :: y :: l' else y :: sort_insert x l'
  end.

Definition js_sort (l : list A) : list A := foldr sort_insert [] l.
End js_sort.

(** ** Project colour utilities ([projectColorPalette], [getProjectColor]) *)
Module ProjectColors.

Definition projectColorPalette : list string :=
  [ "#3b82f6"; "#8b5cf6"; "#ec4899"; "#f59e0b";
    "#10b981"; "#06b6d4"; "#f97316"; "#6366f1";
    "#14b8a6"; "#a855f7"; "#84cc16"; "#22d3ee";
    "#fb923c"; "#4ade80"; "#c084fc"; "#fb7185" ].

(** [taskId.split('-')[0]]; [None] is [undefined]. *)
Definition projectPrefix (taskId : string) : option string :=
  head (split "-"%char taskId).

(** One turn of the loop: [hash = charCode + ((hash << 5) - hash)].  The
    shift wraps to 32 bits; the subtraction and the addition are Number
    arithmetic, exact on integers of this size. *)
Definition hash_step (hash : Z) (charCode : Z) : Z :=
  charCode + (js_shl hash 5 - hash).

Definition hash_of (prefix : string) : Z :=
  foldl hash_step 0 (charCodes prefix).

(** [None] stands for a call that returns no string ([undefined], or a
    TypeError on [undefined.length]). *)
Definition getProjectColor (taskId : string) : option string :=
  if bool_decide (taskId = "") then Some "#6b7280"
  else
    match projectPrefix taskId with
    | Some prefix =>
        let index := Z.rem (Z.abs (hash_of prefix)) (Z.of_nat (length projectColorPalette)) in
        projectColorPalette !! Z.to_nat index
    | None => None
    end.

End ProjectColors.

(** ** lib/beads.js *)
Module Beads.

(** Rows of the four tables the queries read.  An issue row holds its
    [created_at] column twice: [i_created_at_text] is the text stored, which
    SQL orders by, and [i_created_at] the time value [new Date] yields for
    it, which the JavaScript sort compares. *)
Record IssueRow := mkIssueRow {
  i_id : string;
  i_title : string;
  i_description : string;
  i_status : string;
  i_priority : Z;
  i_created_at : Z;
  i_created_at_text : string;
  i_assignee : option string
}.

Record DependencyRow := mkDependencyRow {
  d_issue_id : string;
  d_depends_on_id : string;
  d_type : string
}.

Record LabelRow := mkLabelRow {
  l_issue_id : string;
  l_label : string
}.

Record CommentRow := mkCommentRow {
  c_id : Z;
  c_issue_id : string;
  c_author : string;
  c_text : string;
  c_created_at : string
}.

Record Db := mkDb {
  issues : list IssueRow;
  dependencies : list DependencyRow;
  labels_table : list LabelRow;
  comments_table : list CommentRow
}.

(** An entry of [getProjects()] together with what its database file
    holds; [db = None] is a database on which [new Database] or a query
    throws, which the callers catch and skip. *)
Record Project := mkProject {
  name : string;
  path : string;
  dbPath : string;
  db : option Db
}.

Record Options := mkOptions {
  opt_status : option string;
  opt_priority : option Z;
  opt_projectName : option string
}.

Definition no_options : Options :=
  {| opt_status := None; opt_priority := None; opt_projectName := None |}.

(** Truthiness of an optional string: [undefined] and [""] are falsy. *)
Definition truthy (o : option string) : bool :=
  match o with
  | Some s => negb (bool_decide (s = ""))
  | None => false
  end.

(** [(SELECT GROUP_CONCAT(label, ',') FROM labels WHERE issue_id = i.id)]:
    NULL when there is no row.  The query has no ORDER BY: the rows are
    joined in the order SQLite visits them, for which the order of
    [labels_table] stands (it need not be the order of insertion). *)
Definition group_concat_labels (d : Db) (issue_id : string) : option string :=
  match l_label <$> filter (λ r, l_issue_id r = issue_id) (labels_table d) with
  | [] => None
  | ls => Some (String.concat "," ls)
  end.

(** [task.labels ? task.labels.split(',').filter(Boolean) : []] *)
Definition parse_labels (o : option string) : list string :=
  if truthy o then filter (λ s, s ≠ "") (split ","%char (default "" o)) else [].

(** [dependencies d LEFT JOIN issues i ON key = i.id], projected on the
    columns the queries select. *)
Definition left_join_issue (d : Db) (ref_id : string) (type : string) : list DepRef :=
  match filter (λ i, i_id i = ref_id) (issues d) with
  | [] => [ {| dep_id := ref_id; dep_type := type; dep_title := None;
               dep_status := None; dep_priority := None |} ]
  | rows =>
      (λ i, {| dep_id := ref_id; dep_type := type; dep_title := Some (i_title i);
               dep_status := Some (i_status i); dep_priority := Some (i_priority i) |})
      <$> rows
  end.

(** The rows for [WHERE d.issue_id = ?], mapped to [{id: dep.depends_on_id, ...}]. *)
Definition query_depends_on (d : Db) (task_id : string) : list DepRef :=
  r ← filter (λ r, d_issue_id r = task_id) (dependencies d);
  left_join_issue d (d_depends_on_id r) (d_type r).

(** The rows for [WHERE d.depends_on_id = ?], mapped to [{id: dep.issue_id, ...}]. *)
Definition query_dependents (d : Db) (task_id : string) : list DepRef :=
  r ← filter (λ r, d_depends_on_id r = task_id) (dependencies d);
  left_join_issue d (d_issue_id r) (d_type r).

(** [ORDER BY created_at ASC] over the comments of an issue: the order of
    the stored text. *)
Definition query_comments (d : Db) (task_id : string) : list Comment :=
  (λ c, {| comment_id := c_id c; comment_author := c_author c;
           comment_text := c_text c; comment_created_at := c_created_at c |})
  <$> js_sort (λ a b, text_compare (c_created_at a) (c_created_at b))
        (filter (λ c, c_issue_id c = task_id) (comments_table d)).

(** The comparator of [allTasks.sort]. *)
Definition compare_tasks (a b : Task) : Z :=
  if bool_decide (priority a ≠ priority b) then priority a - priority b
  else created_at b - created_at a.

(** [ORDER BY i.priority ASC, i.created_at DESC]: priority as a number,
    [created_at] as the stored text. *)
Definition compare_rows (a b : IssueRow) : Z :=
  if bool_decide (i_priority a ≠ i_priority b) then i_priority a - i_priority b
  else text_compare (i_created_at_text b) (i_created_at_text a).

(** The issue row with [project], [project_path] and parsed [labels]. *)
Definition base_task (p : Project) (d : Db) (i : IssueRow) : Task :=
  {| id := i_id i; title := i_title i; description := i_description i;
     status := i_status i; priority := i_priority i; created_at := i_created_at i;
     assignee := i_assignee i;
     project := name p; project_path := path p;
     labels := parse_labels (group_concat_labels d (i_id i));
     depends_on := None; blocked_by := None; dependents := None; comments := None |}.

(** A task as the loop of [getTasks] completes it. *)
Definition list_task (p : Project) (d : Db) (i : IssueRow) : Task :=
  let t := base_task p d i in
  {| id := id t; title := title t; description := description t; status := status t;
     priority := priority t; created_at := created_at t; assignee := assignee t;
     project := project t; project_path := project_path t; labels := labels t;
     depends_on := Some (query_depends_on d (i_id i));
     blocked_by := Some (query_dependents d (i_id i));
     dependents := None; comments := None |}.

(** A task as [getTaskById] completes it. *)
Definition full_task (p : Project) (d : Db) (i : IssueRow) (taskId : string) : Task :=
  let t := base_task p d i in
  {| id := id t; title := title t; description := description t; status := status t;
     priority := priority t; created_at := created_at t; assignee := assignee t;
     project := project t; project_path := project_path t; labels := labels t;
     depends_on := Some (query_depends_on d taskId);
     blocked_by := None;
     dependents := Some (query_dependents d taskId);
     comments := Some (query_comments d taskId) |}.

(** The WHERE clause of [getTasks]: [1=1], then [AND i.status = ?] and
    [AND i.priority = ?] for the options that are not [undefined]. *)
Definition where_clause (o : Options) (i : IssueRow) : bool :=
  match opt_status o with
  | Some s => bool_decide (i_status i = s)
  | None => true
  end &&
  match opt_priority o with
  | Some q => bool_decide (i_priority i = q)
  | None => true
  end.

(** The SELECT of [getTasks] with its optional filters. *)
Definition select_issues (o : Options) (d : Db) : list IssueRow :=
  js_sort compare_rows (filter (λ i, where_clause o i = true) (issues d)).

(** The tasks one project contributes to [allTasks]. *)
Definition project_tasks (o : Options) (p : Project) : list Task :=
  if truthy (opt_projectName o) && negb (bool_decide (Some (name p) = opt_projectName o))
  then []
  else match db p with
       | Some d => list_task p d <$> select_issues o d
       | None => []
       end.

Definition getTasks (o : Options) (projects : list Project) : list Task :=
  if truthy (opt_projectName o) &&
     bool_decide (filter (λ p, Some (name p) = opt_projectName o) projects = [])
  then []
  else js_sort compare_tasks (projects ≫= project_tasks o).

(** [db.prepare(... WHERE i.id = ?).get(taskId)]: the first matching row. *)
Definition get_issue (d : Db) (taskId : string) : option IssueRow :=
  head (filter (λ i, i_id i = taskId) (issues d)).

Fixpoint getTaskById (taskId : string) (projects : list Project) : option Task :=
  match projects with
  | [] => None
  | p :: rest =>
      match db p with
      | Some d =>
          match get_issue d taskId with
          | Some i => Some (full_task p d i taskId)
          | None => getTaskById taskId rest
          end
      | None => getTaskById taskId rest
      end
  end.

(** One turn of the loop of [getReadyTasks]: what it pushes for [task]. *)
Definition ready_step (projects : list Project) (task : Task) : list Task :=
  match getTaskById (id task) projects with
  | Some fullTask =>
      match depends_on fullTask with
      | Some deps =>
          let hasBlockers := existsb not_closed deps in
          if hasBlockers then [] else [fullTask]
      | None => [task]
      end
  | None => [task]
  end.

Definition getReadyTasks (projects : list Project) : list Task :=
  getTasks {| opt_status := Some "open"; opt_priority := None; opt_projectName := None |} projects
  ≫= ready_step projects.

End Beads.

(** ** The task routes of the dashboard API *)
Module TaskApi.

(** What a response carries.  [message] is [None] where the source has no
    message or takes it from the exception it caught. *)
Inductive Body :=
| ErrorBody (error : string) (message : option string)
| TaskBody (task : Task)
| AssignedBody (message : string) (task : option Task).

Record Response := mkResponse {
  body : Body;
  http_status : Z
}.

(** [json(data)] answers 200; [json(data, {status})] answers [status]. *)
Definition json (b : Body) (init : option Z) : Response :=
  {| body := b; http_status := default 200 init |}.

(** The outcomes of the response protocol and the status each maps to. *)
Inductive Outcome :=
| Assigned | InvalidFormat | NotFound | Conflict | Timeout | InternalError.

Definition outcome_status (o : Outcome) : Z :=
  match o with
  | Assigned => 200
  | InvalidFormat => 400
  | NotFound => 404
  | Conflict => 409
  | Timeout => 504
  | InternalError => 500
  end.

(** The task-detail route: [GET({ params })] with [params.id = taskId]. *)
Definition GET (projects : list Beads.Project) (taskId : string) : Response :=
  match Beads.getTaskById taskId projects with
  | None => json (ErrorBody "Task not found" None) (Some 404)
  | Some task => json (TaskBody task) None
  end.

(** *** The identifier format [/^[a-z]+-[a-z0-9]{3}$/] *)

Definition is_lower (c : ascii) : bool :=
  let n := nat_of_ascii c in (97 <=? n)%nat && (n <=? 122)%nat.

Definition is_digit (c : ascii) : bool :=
  let n := nat_of_ascii c in (48 <=? n)%nat && (n <=? 57)%nat.

Definition all_chars (P : ascii → bool) (s : string) : bool :=
  forallb P (String.list_ascii_of_string s).

(** Neither character class contains ['-'], so a match has exactly one
    ['-']: a non-empty run of [a-z] before it, three of [a-z0-9] after. *)
Definition valid_task_id (taskId : string) : bool :=
  match split "-"%char taskId with
  | [proj; hash] =>
      negb (bool_decide (proj = "")) && all_chars is_lower proj &&
      bool_decide (String.length hash = 3%nat) &&
      all_chars (λ c, is_lower c || is_digit c) hash
  | _ => false
  end.

(** *** The assignment route

    The handler file (POST of [routes/api/agents/+server.js]) is not
    among the sources; it is transcribed from its full listing in
    [dashboard/docs/drag-drop-error-handling-test-report.md], appendix B.
    The [bd] command line is the external Task Store: its two commands
    are parameters acting on an abstract store, and every call the
    handler makes is recorded. *)

Record AssignRequest := mkAssignRequest {
  taskId : option string;
  agentName : option string
}.

Inductive StoreOp :=
| BdShow (task_id : string)
| BdUpdateAssignee (task_id agent : string).

Section assignment.
Context {Store : Type}.
(** [bd show "<id>" --json], parsed; [None] when the command or the
    parse throws. *)
Variable bd_show : Store → string → option (list Task).
(** [bd update "<id>" --assignee "<agent>"]; [None] when it throws. *)
Variable bd_update_assignee : Store → string → string → option Store.

Definition not_found (tid : string) (msg : string) : Response :=
  json (ErrorBody "Task not found" (Some ("Task " +:+ tid +:+ msg))) (Some 404).

(** [request = None] is a body on which [request.json()] throws. *)
Definition POST (st : Store) (request : option AssignRequest)
    : Response * Store * list StoreOp :=
  match request with
  | None =>
      (json (ErrorBody "Invalid request" None) (Some 400), st, [])
  | Some req =>
      if negb (Beads.truthy (taskId req)) || negb (Beads.truthy (agentName req)) then
        (json (ErrorBody "Missing required fields"
                 (Some "Both taskId and agentName are required")) (Some 400), st, [])
      else
        let tid := default "" (taskId req) in
        let agent := default "" (agentName req) in
        if negb (valid_task_id tid) then
          (json (ErrorBody "Invalid task ID format"
                   (Some "Task ID must be in format: project-xxx (e.g., jat-abc)"))
                (Some 400), st, [])
        else
          match bd_show st tid with
          | None =>
              (not_found tid " does not exist or could not be retrieved", st, [BdShow tid])
          | Some [] => (not_found tid " does not exist", st, [BdShow tid])
          | Some (_ :: _) =>
              match bd_update_assignee st tid agent with
              | None =>
                  (json (ErrorBody "Failed to assign task" None) (Some 500), st,
                   [BdShow tid; BdUpdateAssignee tid agent])
              | Some st' =>
                  match bd_show st' tid with
                  | None =>
                      (json (ErrorBody "Failed to assign task" None) (Some 500), st',
                       [BdShow tid; BdUpdateAssignee tid agent; BdShow tid])
                  | Some updatedTask =>
                      (json (AssignedBody ("Task " +:+ tid +:+ " assigned to " +:+ agent)
                               (head updatedTask)) None, st',
                       [BdShow tid; BdUpdateAssignee tid agent; BdShow tid])
                  end
              end
          end
  end.
End assignment.

End TaskApi.

(** ** Two calls of the assignment route in flight

    The handler awaits each [bd] command, so two requests take turns at
    the commands.  Each command is one step on the Task Store; a call is
    tracked by the command it is about to run, and a schedule says whose
    command runs next. *)
Module AssignRace.
Import TaskApi.

Inductive Call :=
| AtShow (tid agent : string)
| AtUpdate (tid agent : string)
| AtShowAgain (tid agent : string)
| Done (resp : Response).

(** The handler up to its first command: the validation of [POST]. *)
Definition start (request : option AssignRequest) : Call :=
  match request with
  | None => Done (json (ErrorBody "Invalid request" None) (Some 400))
  | Some req =>
      if negb (Beads.truthy (taskId req)) || negb (Beads.truthy (agentName req)) then
        Done (json (ErrorBody "Missing required fields"
                      (Some "Both taskId and agentName are required")) (Some 400))
      else
        let tid := default "" (taskId req) in
        let agent := default "" (agentName req) in
        if negb (valid_task_id tid) then
          Done (json (ErrorBody "Invalid task ID format"
                        (Some "Task ID must be in format: project-xxx (e.g., jat-abc)"))
                     (Some 400))
        else AtShow tid agent
  end.

(** The commands a call has yet to run, at most. *)
Definition todo (c : Call) : nat :=
  match c with
  | AtShow _ _ => 3
  | AtUpdate _ _ => 2
  | AtShowAgain _ _ => 1
  | Done _ => 0
  end.

(** The turns a schedule gives to the first ([true]) or second call. *)
Definition turns (first : bool) (sched : list bool) : nat :=
  length (filter (λ b, b = first) sched).

(** A schedule that lets both calls run to their answers. *)
Definition complete (sched : list bool) : Prop :=
  (3 ≤ turns true sched)%nat ∧ (3 ≤ turns false sched)%nat.

Definition answered (c : Call) (o : Outcome) : Prop :=
  ∃ resp, c = Done resp ∧ http_status resp = outcome_status o.

(** A call on [tid] that has not reached its update, one whose update went
    through, and one that has not or was answered 500. *)
Inductive waiting (tid : string) : Call → Prop :=
| waiting_show agent : waiting tid (AtShow tid agent)
| waiting_update agent : waiting tid (AtUpdate tid agent).

Inductive winner (tid : string) : Call → Prop :=
| winner_again agent : winner tid (AtShowAgain tid agent)
| winner_done resp : http_status resp = outcome_status Assigned → winner tid (Done resp).

Inductive loser (tid : string) : Call → Prop :=
| loser_waiting c : waiting tid c → loser tid c
| loser_done resp : http_status resp = outcome_status InternalError → loser tid (Done resp).

Section race.
Context {Store : Type}.
Variable bd_show : Store → string → option (list Task).
Variable bd_update_assignee : Store → string → string → option Store.

(** The next command of one call; the branches are those of [POST]. *)
Definition step (s : Store * Call) : Store * Call :=
  let '(st, c) := s in
  match c with
  | AtShow tid agent =>
      match bd_show st tid with
      | None => (st, Done (not_found tid " does not exist or could not be retrieved"))
      | Some [] => (st, Done (not_found tid " does not exist"))
      | Some (_ :: _) => (st, AtUpdate tid agent)
      end
  | AtUpdate tid agent =>
      match bd_update_assignee st tid agent with
      | None => (st, Done (json (ErrorBody "Failed to assign task" None) (Some 500)))
      | Some st' => (st', AtShowAgain tid agent)
      end
  | AtShowAgain tid agent =>
      match bd_show st tid with
      | None => (st, Done (json (ErrorBody "Failed to assign task" None) (Some 500)))
      | Some updatedTask =>
          (st, Done (json (AssignedBody ("Task " +:+ tid +:+ " assigned to " +:+ agent)
                             (head updatedTask)) None))
      end
  | Done resp => (st, Done resp)
  end.

Fixpoint run (sched : list bool) (s : Store * Call * Call) : Store * Call * Call :=
  match sched with
  | [] => s
  | first :: sched' =>
      let '(st, c1, c2) := s in
      if first
      then let '(st', c1') := step (st, c1) in run sched' (st', c1', c2)
      else let '(st', c2') := step (st, c2) in run sched' (st', c1, c2')
  end.

(** What exclusive assignment asks of the store: while nobody holds the
    task, an update of its assignee goes through; once one has, the store
    refuses every further one (compare-and-set); and the task is shown
    before and after. *)
Definition refuses (st : Store) (tid : string) : Prop :=
  ∀ agent, bd_update_assignee st tid agent = None.

Definition shows (st : Store) (tid : string) : Prop :=
  ∃ t ts, bd_show st tid = Some (t :: ts).

Definition compare_and_set (st0 : Store) (tid : string) : Prop :=
  (∀ agent, is_Some (bd_update_assignee st0 tid agent))
  ∧ ∀ agent st', bd_update_assignee st0 tid agent = Some st' → refuses st' tid.

Definition shown (st0 : Store) (tid : string) : Prop :=
  shows st0 tid
  ∧ ∀ agent st', bd_update_assignee st0 tid agent = Some st' → shows st' tid.

(** Either no update has gone through and the store is as it was, or one
    has, the store now refuses, and the other call has not won. *)
Definition race_inv (st0 : Store) (tid : string) (s : Store * Call * Call) : Prop :=
  let '(st, c1, c2) := s in
  (st = st0 ∧ waiting tid c1 ∧ waiting tid c2)
  ∨ (refuses st tid ∧ shows st tid
     ∧ ((winner tid c1 ∧ loser tid c2) ∨ (loser tid c1 ∧ winner tid c2))).
End race.

End AssignRace.

(** * Vocabulary of the specification and example inputs *)

Import DependencyUtils ProjectColors Beads TaskApi.

(** A dependency entry is closed when its status is ['closed']. *)
Definition closed (dep : DepRef) : Prop := dep_status dep = Some "closed".

#[global] Instance closed_dec (dep : DepRef) : Decision (closed dep).
Proof. unfold closed. apply _. Defined.

(** The order "by priority, then by identifier" on dependency entries; a
    NULL priority counts as 0, as it does in JavaScript arithmetic. *)
Definition dep_prio (dep : DepRef) : Z := default 0 (dep_priority dep).

Definition dep_le (a b : DepRef) : Prop :=
  dep_prio a < dep_prio b ∨ (dep_prio a = dep_prio b ∧ String.leb (dep_id a) (dep_id b) = true).

#[global] Instance dep_le_dec (a b : DepRef) : Decision (dep_le a b).
Proof. unfold dep_le. apply _. Defined.

(** The dependents of a task that are still open, that is, not closed. *)
Definition open_dependents (task : Task) : list DepRef :=
  filter (λ dep, ¬ closed dep) (or_empty (blocked_by task)).

(** [task] with another [blocked_by] list. *)
Definition with_blocked_by (task : Task) (bb : option (list DepRef)) : Task :=
  {| id := id task; title := title task; description := description task;
     status := status task; priority := priority task; created_at := created_at task;
     assignee := assignee task; project := project task; project_path := project_path task;
     labels := labels task; depends_on := depends_on task; blocked_by := bb;
     dependents := dependents task; comments := comments task |}.

(** A task with only the fields the dependency utilities read. *)
Definition task_of (tid : string) (deps bb : option (list DepRef)) : Task :=
  {| id := tid; title := ""; description := ""; status := "open"; priority := 2;
     created_at := 0; assignee := None; project := ""; project_path := ""; labels := [];
     depends_on := deps; blocked_by := bb; dependents := None; comments := None |}.

Definition dep_of (tid : string) (st : string) (prio : Z) : DepRef :=
  {| dep_id := tid; dep_type := "blocks"; dep_title := Some tid;
     dep_status := Some st; dep_priority := Some prio |}.

Definition unsorted_task : Task :=
  task_of "jat-top" (Some [dep_of "jat-bbb" "open" 2; dep_of "jat-aaa" "open" 1]) None.

Definition sorted_task : Task :=
  task_of "jat-top"
    (Some [dep_of "jat-aaa" "open" 1; dep_of "jat-mmm" "closed" 1; dep_of "jat-bbb" "in_progress" 2])
    None.

Definition closed_dependent_task : Task :=
  task_of "jat-top" None (Some [dep_of "jat-zzz" "closed" 1]).

(** The number of entries of [allTasks] whose identifier is not yet in
    [visited]: every expansion of such a task makes it drop. *)
Definition unvisited (allTasks : list Task) (visited : gset string) : nat :=
  length (filter (λ t, id t ∉ visited) allTasks).

(** Two tasks that depend on each other. *)
Definition cycle_a : Task := task_of "jat-aaa" (Some [dep_of "jat-bbb" "open" 1]) None.
Definition cycle_b : Task := task_of "jat-bbb" (Some [dep_of "jat-aaa" "open" 1]) None.

(** The substring of an identifier before its first ['-'] (the whole
    identifier when it has none). *)
Fixpoint before_first_dash (s : string) : string :=
  match s with
  | EmptyString => ""
  | String c s' => if Ascii.eqb c "-" then "" else String c (before_first_dash s')
  end.

(** [a] may stand before [b]: the comparator does not put [a] after [b]. *)
Definition before {A} (comparefn : A → A → Z) (a b : A) : Prop := comparefn a b ≤ 0.

(** The order of the task list: priority ascending, and among tasks of equal
    priority the creation time descending. *)
Definition task_order (a b : Task) : Prop :=
  priority a < priority b ∨ (priority a = priority b ∧ created_at b ≤ created_at a).

Definition issue_of (tid st : string) (prio created : Z) : IssueRow :=
  {| i_id := tid; i_title := tid; i_description := ""; i_status := st;
     i_priority := prio; i_created_at := created; i_created_at_text := pretty created;
     i_assignee := None |}.

Definition project_of (nm : string) (rows : list IssueRow) (deps : list DependencyRow) : Project :=
  {| name := nm; path := "/home/dev/code/" +:+ nm;
     dbPath := "/home/dev/code/" +:+ nm +:+ "/.beads/beads.db";
     db := Some {| issues := rows; dependencies := deps; labels_table := [];
                   comments_table := [] |} |}.

(** One store whose single issue carries the repository's own project name,
    which has hyphens in it. *)
Definition hyphen_store : list Project :=
  [ project_of "jomarchy-agent-tools" [issue_of "jomarchy-agent-tools-ab1" "open" 1 100] [] ].

(** A Task Store for the examples: the list of assignments made so far;
    [bd show] knows one task. *)
Definition demo_show (st : list (string * string)) (tid : string) : option (list Task) :=
  if bool_decide (tid = "jat-abc") then Some [task_of "jat-abc" None None] else Some [].

Definition demo_update (st : list (string * string)) (tid agent : string)
    : option (list (string * string)) :=
  Some ((tid, agent) :: st).

Definition bad_request : AssignRequest :=
  {| taskId := Some "invalid-id"; agentName := Some "Agent1" |}.

(** The identifiers held by the stores that can be read, store by store. *)
Definition project_ids (p : Project) : list string :=
  match db p with
  | Some d => i_id <$> issues d
  | None => []
  end.

Definition all_ids (projects : list Project) : list string := projects ≫= project_ids.

Definition open_options : Options :=
  {| opt_status := Some "open"; opt_priority := None; opt_projectName := None |}.

(** Two checkouts of one project under the code directory: the same
    identifier, closed in the first store and still open in the second. *)
Definition duplicated_stores : list Project :=
  [ project_of "jat" [issue_of "jat-abc" "closed" 1 100] [];
    project_of "jat-old" [issue_of "jat-abc" "open" 1 100] [] ].

(** The same, with the first copy open but blocked and the second ready. *)
Definition shadowed_stores : list Project :=
  [ project_of "jat" [issue_of "jat-abc" "open" 1 100; issue_of "jat-xyz" "in_progress" 1 50]
      [ {| d_issue_id := "jat-abc"; d_depends_on_id := "jat-xyz"; d_type := "blocks" |} ];
    project_of "jat-old" [issue_of "jat-abc" "open" 1 100] [] ].

(** One store: a ready task, a task whose only dependency is closed, the
    closed task, and a task blocked by an open one. *)
Definition ready_stores : list Project :=
  [ project_of "jat"
      [ issue_of "jat-aaa" "open" 1 100; issue_of "jat-bbb" "open" 0 90;
        issue_of "jat-ccc" "closed" 2 80; issue_of "jat-ddd" "open" 1 70 ]
      [ {| d_issue_id := "jat-bbb"; d_depends_on_id := "jat-ccc"; d_type := "blocks" |};
        {| d_issue_id := "jat-ddd"; d_depends_on_id := "jat-aaa"; d_type := "blocks" |} ] ].

(** * Further functions of the same files *)

(** ** dependencyUtils.ts: [formatDependencyChain] *)
Module DependencyFormat.

(** The line separator ['\n']. *)
Definition newline : string := String "010"%char "".

Fixpoint repeat_nat (s : string) (n : nat) : string :=
  match n with
  | O => ""
  | S n' => s +:+ repeat_nat s n'
  end.

(** [s.repeat(count)]: a RangeError, here [None], for a negative count. *)
Definition repeat_str (s : string) (count : Z) : option string :=
  if count <? 0 then None else Some (repeat_nat s (Z.to_nat count)).

(** One turn of [chain.forEach]: the line pushed for [{ level, task }]. *)
Definition format_line (item : LevelEntry) : option string :=
  match repeat_str "  " (Z.of_nat (level item) - 1) with
  | Some indent =>
      let prefix := if 1 <? Z.of_nat (level item) then "↳ " else "→ " in
      let task := entry_task item in
      Some (indent +:+ prefix +:+ id task +:+ ": " +:+ title task
            +:+ " (" +:+ status task +:+ ")")
  | None => None
  end.

(** The lines in order; [None] as soon as one turn throws. *)
Fixpoint format_lines (chain : list LevelEntry) : option (list string) :=
  match chain with
  | [] => Some []
  | item :: rest =>
      match format_line item with
      | Some line =>
          match format_lines rest with
          | Some lines => Some (line :: lines)
          | None => None
          end
      | None => None
      end
  end.

Definition formatDependencyChain (chain : list LevelEntry) : option string :=
  if bool_decide (length chain = 0%nat) then Some "No dependencies"
  else match format_lines chain with
       | Some lines => Some (String.concat newline lines)
       | None => None
       end.

(** The parameter type gives [level] as a number, so a caller may pass any
    integer, not only the levels [buildDependencyChain] produces.  The same
    function on such entries: *)
Record NumberEntry := mkNumberEntry {
  number_level : Z;
  number_task : Task
}.

Definition format_number_line (item : NumberEntry) : option string :=
  match repeat_str "  " (number_level item - 1) with
  | Some indent =>
      let prefix := if 1 <? number_level item then "↳ " else "→ " in
      let task := number_task item in
      Some (indent +:+ prefix +:+ id task +:+ ": " +:+ title task
            +:+ " (" +:+ status task +:+ ")")
  | None => None
  end.

Fixpoint format_number_lines (chain : list NumberEntry) : option (list string) :=
  match chain with
  | [] => Some []
  | item :: rest =>
      match format_number_line item with
      | Some line =>
          match format_number_lines rest with
          | Some lines => Some (line :: lines)
          | None => None
          end
      | None => None
      end
  end.

Definition formatDependencyChain_number (chain : list NumberEntry) : option string :=
  if bool_decide (length chain = 0%nat) then Some "No dependencies"
  else match format_number_lines chain with
       | Some lines => Some (String.concat newline lines)
       | None => None
       end.

(** An entry of a built chain as an entry with a number for its level. *)
Definition as_number (item : LevelEntry) : NumberEntry :=
  {| number_level := Z.of_nat (level item); number_task := entry_task item |}.

End DependencyFormat.

(** ** Project colour utilities: [getProjectColorMap] *)
Module ProjectColorMap.

(** A JavaScript [Map] from project prefix to colour, as its entries in
    insertion order.  A key or a value [None] is [undefined]. *)
Definition ColorMap : Type := list (option string * option string).

(** [map.has(key)] *)
Definition map_has (m : ColorMap) (key : option string) : bool :=
  bool_decide (key ∈ m.*1).

(** [map.get(key)]; the outer [None] is a key the map does not have. *)
Definition map_get (m : ColorMap) (key : option string) : option (option string) :=
  (λ found, found.2.2) <$> list_find (λ kv, kv.1 = key) m.

(** One turn of [tasks.forEach]. *)
Definition color_map_step (m : ColorMap) (task : Task) : ColorMap :=
  let projectPrefix := ProjectColors.projectPrefix (id task) in
  if map_has m projectPrefix then m
  else (m ++ [(projectPrefix, ProjectColors.getProjectColor (id task))])%list.

Definition getProjectColorMap (tasks : list Task) : ColorMap :=
  foldl color_map_step [] tasks.

End ProjectColorMap.

(** ** The task routes: [PUT] *)
Module TaskUpdate.

(** A field of the parsed request body, which may hold any JSON value:
    [Absent] is [undefined], [Text] a string, and [Other] any other value
    ([null], a number, a boolean, an array, an object), kept as the text a
    template literal makes of it, [None] when that conversion throws. *)
Inductive Field :=
| Absent
| Text (s : string)
| Other (rendered : option string).

(** The fields of the request body the handler reads. *)
Record Updates := mkUpdates {
  upd_title : Field;
  upd_description : Field;
  upd_priority : Field;
  upd_status : Field
}.

Definition dquote : ascii := "034"%char.
Definition backslash : ascii := "092"%char.

(** [s.replace(/"/g, '\\"')]: a backslash before every double quote. *)
Fixpoint escape_quotes (s : string) : string :=
  match s with
  | EmptyString => ""
  | String c s' =>
      if Ascii.eqb c dquote then String backslash (String dquote (escape_quotes s'))
      else String c (escape_quotes s')
  end.

(** [`--flag "${value.replace(/"/g, '\\"')}"`] *)
Definition quoted_arg (flag value : string) : string :=
  flag +:+ " " +:+ String dquote (escape_quotes value +:+ String dquote "").

(** [if (value !== undefined) args.push(`--flag "${value.replace(...)}"`)]:
    what the test pushes.  Only a string has [replace]; on any other value
    the call throws a TypeError, here [None]. *)
Definition quoted_field (flag : string) (value : Field) : option (list string) :=
  match value with
  | Absent => Some []
  | Text s => Some [quoted_arg flag s]
  | Other _ => None
  end.

(** [if (value !== undefined) args.push(`--flag ${value}`)] *)
Definition plain_field (flag : string) (value : Field) : option (list string) :=
  match value with
  | Absent => Some []
  | Text s => Some [flag +:+ " " +:+ s]
  | Other (Some rendered) => Some [flag +:+ " " +:+ rendered]
  | Other None => None
  end.

(** The [args] array after the four tests; [None] when one of them throws. *)
Definition build_args (u : Updates) : option (list string) :=
  match quoted_field "--title" (upd_title u) with
  | Some t =>
      match quoted_field "--description" (upd_description u) with
      | Some d =>
          match plain_field "--priority" (upd_priority u) with
          | Some p =>
              match plain_field "--status" (upd_status u) with
              | Some s => Some (t ++ d ++ p ++ s)%list
              | None => None
              end
          | None => None
          end
      | None => None
      end
  | None => None
  end.



(** [`bd update ${taskId} ${args.join(' ')}`] *)
Definition update_command (taskId : string) (args : list string) : string :=
  "bd update " +:+ taskId +:+ " " +:+ String.concat " " args.

(** [haystack.includes(needle)] *)
Definition includes (haystack needle : string) : bool :=
  bool_decide (is_Some (String.index 0 needle haystack)).

Inductive PutBody :=
| PutError (error : string) (details : option string)
| PutTask (task : Task).

Record PutResponse := mkPutResponse {
  put_body : PutBody;
  put_status : Z
}.

Section put.
(** [execAsync(command)]: the project stores as the command leaves them and
    what it wrote to stderr; [None] when it rejects.  The stores are what
    [getTaskById] reads afterwards. *)
Variable execAsync : list Beads.Project → string → option (list Beads.Project * string).

(** The handler on a parsed body; the result lists the commands run.
    [updates = None] is the body [null], on which reading [updates.title]
    throws.  What is thrown inside the [try] is answered 500, with the
    exception's message as [details] (here [None]). *)
Definition PUT (projects : list Beads.Project) (taskId : string) (updates : option Updates)
    : PutResponse * list Beads.Project * list string :=
  let lookup (ps : list Beads.Project) (cmds : list string) :=
    match Beads.getTaskById taskId ps with
    | None =>
        ({| put_body := PutError "Task not found after update" None; put_status := 404 |},
         ps, cmds)
    | Some updatedTask => ({| put_body := PutTask updatedTask; put_status := 200 |}, ps, cmds)
    end in
  match updates ≫= build_args with
  | None =>
      ({| put_body := PutError "Failed to update task" None; put_status := 500 |},
       projects, [])
  | Some args =>
      if bool_decide (0 < length args)%nat then
        let command := update_command taskId args in
        match execAsync projects command with
        | Some (projects', stderr) =>
            if negb (bool_decide (stderr = "")) && negb (includes stderr "âœ“") then
              ({| put_body := PutError "Failed to update task" (Some stderr);
                  put_status := 500 |},
               projects', [command])
            else lookup projects' [command]
        | None =>
            ({| put_body := PutError "Failed to update task" None; put_status := 500 |},
             projects, [command])
        end
      else lookup projects []
  end.
End put.

End TaskUpdate.

(** ** dashboard/src/lib/server/agent-mail.js: [getBeadsActivities] *)
Module AgentMail.

Record Activity := mkActivity {
  ts : Z;
  preview : string;
  content : string;
  type : string
}.

Section activities.
(** The time value of a task's [updated_at] column, which the task record
    above does not carry. *)
Variable updated_at : Task → Z.

Definition activity_preview (task : Task) : string :=
  if bool_decide (status task = "closed")
  then "[" +:+ id task +:+ "] Completed: " +:+ title task
  else if bool_decide (status task = "in_progress")
  then "[" +:+ id task +:+ "] Working: " +:+ title task
  else if bool_decide (status task = "blocked")
  then "[" +:+ id task +:+ "] Blocked: " +:+ title task
  else if bool_decide (status task = "open")
  then "[" +:+ id task +:+ "] Starting: " +:+ title task
  else "[" +:+ id task +:+ "] " +:+ title task.

Definition activity_type (task : Task) : string :=
  if bool_decide (status task = "blocked") then "urgent"
  else if bool_decide (status task = "in_progress") then "action_required"
  else "message".

Definition to_activity (task : Task) : Activity :=
  {| ts := updated_at task;
     preview := activity_preview task;
     content := if bool_decide (description task = "") then title task else description task;
     type := activity_type task |}.

(** [allTasks = None] is a null or undefined argument. *)
Definition getBeadsActivities (agentName : string) (allTasks : option (list Task))
    : list Activity :=
  match allTasks with
  | None | Some [] => []
  | Some tasks =>
      let agentTasks := filter (λ task, assignee task = Some agentName) tasks in
      to_activity <$> take 10 (js_sort (λ a b, updated_at b - updated_at a) agentTasks)
  end.
End activities.

End AgentMail.

(** * Vocabulary of the further properties *)

(** The polynomial hash with multiplier 31 over the character codes, the
    value the loop of [getProjectColor] would reach without wrap-around. *)
Definition poly_hash (codes : list Z) : Z := foldl (λ h c, c + 31 * h) 0 codes.

(** The identifiers of the tasks of a chain. *)
Definition chain_ids (chain : list LevelEntry) : gset string :=
  list_to_set ((λ item, id (entry_task item)) <$> chain).

(** The issue a dependency entry refers to is missing from the database. *)
Definition dangling (d : Db) (ref_id : string) : Prop :=
  ∀ i, i ∈ issues d → i_id i ≠ ref_id.

(** A label survives the comma-separated round trip: it is not empty and
    holds no comma. *)
Definition plain_label (s : string) : Prop :=
  s ≠ "" ∧ ","%char ∉ String.list_ascii_of_string s.

(** The database of the single-store examples with a dependency on an
    issue that does not exist. *)
Definition dangling_store : list Project :=
  [ project_of "jat" [issue_of "jat-aaa" "open" 1 100]
      [ {| d_issue_id := "jat-aaa"; d_depends_on_id := "jat-gone"; d_type := "blocks" |} ] ].

(** The direct blockers of a task: the tasks of [allTasks] its [depends_on]
    entries name, in the order of [depends_on]. *)
Definition direct_blockers (allTasks : list Task) (task : Task) : list Task :=
  omap (λ dep, find_task allTasks (dep_id dep)) (or_empty (depends_on task)).

(** What a chain entry is expected to be: a task of [allTasks] at a level
    of at least 1. *)
Definition chain_entry_ok (allTasks : list Task) (item : LevelEntry) : Prop :=
  (1 ≤ level item)%nat ∧ entry_task item ∈ allTasks.

(** What one call leaves behind, in terms of the chain it returns. *)
Definition call_ok (allTasks : list Task) (task : Task) (visited : gset string)
    (r : ChainState) : Prop :=
  Forall (chain_entry_ok allTasks) r.1
  ∧ r.2 = {[id task]} ∪ visited ∪ chain_ids r.1.

(** The database of [ready_stores], and the entry its second issue has
    for the closed issue it depends on. *)
Definition ready_db : Db :=
  {| issues :=
       [ issue_of "jat-aaa" "open" 1 100; issue_of "jat-bbb" "open" 0 90;
         issue_of "jat-ccc" "closed" 2 80; issue_of "jat-ddd" "open" 1 70 ];
     dependencies :=
       [ {| d_issue_id := "jat-bbb"; d_depends_on_id := "jat-ccc"; d_type := "blocks" |};
         {| d_issue_id := "jat-ddd"; d_depends_on_id := "jat-aaa"; d_type := "blocks" |} ];
     labels_table := []; comments_table := [] |}.

Definition closed_entry : DepRef :=
  {| dep_id := "jat-ccc"; dep_type := "blocks"; dep_title := Some "jat-ccc";
     dep_status := Some "closed"; dep_priority := Some 2 |}.

(** A store whose only issue has three comments, stored out of order. *)
Definition commented_store : list Project :=
  [ {| name := "jat"; path := "/home/dev/code/jat";
       dbPath := "/home/dev/code/jat/.beads/beads.db";
       db := Some {| issues := [issue_of "jat-aaa" "open" 1 100];
                     dependencies := [];
                     labels_table := [];
                     comments_table :=
                       [ {| c_id := 1; c_issue_id := "jat-aaa"; c_author := "Agent1";
                            c_text := "third"; c_created_at := "2025-11-03 10:00:00" |};
                         {| c_id := 2; c_issue_id := "jat-aaa"; c_author := "Agent2";
                            c_text := "first"; c_created_at := "2025-11-01 10:00:00" |};
                         {| c_id := 3; c_issue_id := "jat-aaa"; c_author := "Agent1";
                            c_text := "second"; c_created_at := "2025-11-02 10:00:00" |} ] |} |} ].

(** Comments in ascending order of the stored [created_at] text. *)
Definition comment_order (a b : Comment) : Prop :=
  text_compare (comment_created_at a) (comment_created_at b) ≤ 0.

(** The comment object made from a row of the [comments] table. *)
Definition comment_of_row (c : CommentRow) : Comment :=
  {| comment_id := c_id c; comment_author := c_author c;
     comment_text := c_text c; comment_created_at := c_created_at c |}.

(** An acyclic chain of [k] tasks: task [n] depends on task [n + 1] alone,
    and the last one on a task that is not in the list. *)
Definition chain_id (n : nat) : string := "jat-" +:+ pretty n.

Definition linear_task (n : nat) : Task :=
  task_of (chain_id n) (Some [dep_of (chain_id (S n)) "open" 1]) None.

Definition linear_chain (k : nat) : list Task := linear_task <$> seq 0 k.

(** A Task Store that keeps the tasks themselves: [bd show] lists the
    tasks of that identifier, and [bd update --assignee] writes the
    assignee over whatever was there and throws when there is no such
    task. *)
Definition set_assignee (agent : string) (t : Task) : Task :=
  {| id := id t; title := title t; description := description t; status := status t;
     priority := priority t; created_at := created_at t; assignee := Some agent;
     project := project t; project_path := project_path t; labels := labels t;
     depends_on := depends_on t; blocked_by := blocked_by t; dependents := dependents t;
     comments := comments t |}.

Definition store_show (st : list Task) (tid : string) : option (list Task) :=
  Some (filter (λ t, id t = tid) st).

Definition store_update (st : list Task) (tid agent : string) : option (list Task) :=
  if bool_decide (Exists (λ t, id t = tid) st)
  then Some ((λ t, if bool_decide (id t = tid) then set_assignee agent t else t) <$> st)
  else None.

(** The same store with a compare-and-set update: it refuses a task that
    has an assignee. *)
Definition store_claim (st : list Task) (tid agent : string) : option (list Task) :=
  if bool_decide (Exists (λ t, id t = tid ∧ assignee t ≠ None) st)
  then None
  else store_update st tid agent.

(** One ready, unassigned task, and two agents asking for it. *)
Definition free_store : list Task := [task_of "jat-abc" (Some []) None].

Definition request_of (tid agent : string) : option AssignRequest :=
  Some {| taskId := Some tid; agentName := Some agent |}.

(** * Properties *)

(** ** Readiness ([analyzeDependencies]) *)

Lemma not_closed_true (dep : DepRef) : not_closed dep = true ↔ ¬ closed dep.
Proof.
  unfold not_closed, closed. rewrite negb_true_iff, bool_decide_eq_false. done.
Qed.

Lemma unresolvedBlockers_filter (task : Task) :
  unresolvedBlockers (analyzeDependencies task)
  = filter (λ dep, ¬ closed dep) (or_empty (depends_on task)).
Proof.
  simpl. apply list_filter_iff. intros dep. apply not_closed_true.
Qed.

Lemma filter_length_zero {A} (P : A → Prop) `{!∀ x, Decision (P x)} (l : list A) :
  length (filter P l) = 0%nat ↔ Forall (λ x, ¬ P x) l.
Proof.
  induction l as [|x l IH]; [by split; [constructor|]|].
  rewrite filter_cons, Forall_cons. destruct (decide (P x)); simpl.
  - split; [lia | tauto].
  - rewrite IH. tauto.
Qed.

Lemma hasBlockers_false (task : Task) :
  hasBlockers (analyzeDependencies task) = false
  ↔ Forall closed (or_empty (depends_on task)).
Proof.
  change (hasBlockers (analyzeDependencies task))
    with (bool_decide (0 < length (unresolvedBlockers (analyzeDependencies task)))%nat).
  rewrite unresolvedBlockers_filter, bool_decide_eq_false.
  assert (∀ n : nat, ¬ (0 < n)%nat ↔ n = 0%nat) as -> by lia.
  rewrite filter_length_zero. apply Forall_proper; [|done].
  intros dep. unfold closed. destruct (decide (dep_status dep = Some "closed")); tauto.
Qed.

Lemma canBeAssigned_negb (task : Task) :
  canBeAssigned (analyzeDependencies task) = negb (hasBlockers (analyzeDependencies task)).
Proof. reflexivity. Qed.

(** C1: a task is reported assignable exactly when its [depends_on] list is
    missing, empty, or holds closed entries only; and the blockers returned
    are exactly the entries of [depends_on] that are not closed, in the
    order of [depends_on]. *)
Theorem analyzeDependencies_ready_iff (task : Task) :
  (canBeAssigned (analyzeDependencies task) = true
   ↔ depends_on task = None ∨ depends_on task = Some []
     ∨ ∃ deps, depends_on task = Some deps ∧ Forall closed deps)
  ∧ unresolvedBlockers (analyzeDependencies task)
    = filter (λ dep, ¬ closed dep) (or_empty (depends_on task))
  ∧ (∀ dep, dep ∈ unresolvedBlockers (analyzeDependencies task)
            ↔ dep ∈ or_empty (depends_on task) ∧ dep_status dep ≠ Some "closed").
Proof.
  split; [|split].
  - rewrite canBeAssigned_negb, negb_true_iff, hasBlockers_false.
    destruct (depends_on task) as [deps|]; simpl.
    + split; [intros H; right; right; eauto|].
      intros [?|[?|(deps' & ? & H)]]; simplify_eq; [constructor|done].
    + split; [by left | constructor].
  - apply unresolvedBlockers_filter.
  - intros dep. rewrite unresolvedBlockers_filter, list_elem_of_filter.
    unfold closed. tauto.
Qed.

(** ** Order of the blockers *)

(** C2, as stated, fails: a task whose two open dependencies are listed with
    the lower priority first gets them back in that order, which is sorted
    neither by priority nor by identifier. *)
Lemma blockers_not_sorted :
  hasBlockers (analyzeDependencies unsorted_task) = true
  ∧ unresolvedBlockers (analyzeDependencies unsorted_task)
    = [dep_of "jat-bbb" "open" 2; dep_of "jat-aaa" "open" 1]
  ∧ ¬ dep_le (dep_of "jat-bbb" "open" 2) (dep_of "jat-aaa" "open" 1)
  ∧ ¬ Sorted dep_le (unresolvedBlockers (analyzeDependencies unsorted_task)).
Proof.
  assert (¬ dep_le (dep_of "jat-bbb" "open" 2) (dep_of "jat-aaa" "open" 1)) as Hle.
  { unfold dep_le, dep_prio; simpl. intros [?|[? ?]]; lia. }
  split; [reflexivity|]. split; [reflexivity|]. split; [exact Hle|].
  intros Hs. apply Sorted_inv in Hs as [_ Hhd]. by inversion Hhd.
Qed.

Lemma StronglySorted_filter {A} (R : relation A) (P : A → Prop)
    `{!∀ x, Decision (P x)} (l : list A) :
  StronglySorted R l → StronglySorted R (filter P l).
Proof.
  induction 1 as [|x l Hl IH Hx]; [constructor|].
  rewrite filter_cons. destruct (decide (P x)); [|done].
  constructor; [done|]. rewrite Forall_forall in Hx |- *.
  intros y [_ Hy]%list_elem_of_filter. by apply Hx.
Qed.

(** C2, amended: the blockers list is exactly the list of the non-closed
    entries of [depends_on], each as often and in the order in which
    [depends_on] lists it (no sorting takes place); so it is sorted by
    priority then identifier whenever [depends_on] itself is, and, as the
    task above shows, need not be otherwise. *)
Theorem blockers_keep_order (task : Task) :
  unresolvedBlockers (analyzeDependencies task)
  = filter (λ dep, dep_status dep ≠ Some "closed") (or_empty (depends_on task))
  ∧ unresolvedBlockers (analyzeDependencies task) `sublist_of` or_empty (depends_on task)
  ∧ (StronglySorted dep_le (or_empty (depends_on task))
     → StronglySorted dep_le (unresolvedBlockers (analyzeDependencies task))).
Proof.
  rewrite unresolvedBlockers_filter. split; [|split].
  - done.
  - apply sublist_filter.
  - apply StronglySorted_filter.
Qed.

Lemma blockers_keep_order_witness :
  StronglySorted dep_le (or_empty (depends_on sorted_task))
  ∧ StronglySorted dep_le (unresolvedBlockers (analyzeDependencies sorted_task)).
Proof.
  assert (StronglySorted dep_le (or_empty (depends_on sorted_task))) as Hs.
  { apply (bool_decide_unpack _). by vm_compute. }
  split; [exact Hs|]. exact (proj2 (proj2 (blockers_keep_order sorted_task)) Hs).
Defined.

(** ** Assignment gate and badge ([getDependencyBadge]) *)

(** C3, as stated, fails on the middle case: a task without blockers whose
    only dependent is closed has no open dependent, yet it gets the warning
    badge instead of a hidden one. *)
Lemma badge_shown_without_open_dependents :
  hasBlockers (analyzeDependencies closed_dependent_task) = false
  ∧ open_dependents closed_dependent_task = []
  ∧ getDependencyBadge (analyzeDependencies closed_dependent_task) = warning_badge 1
  ∧ show (getDependencyBadge (analyzeDependencies closed_dependent_task)) = true.
Proof. by vm_compute. Qed.

Lemma hasBlockedTasks_true (task : Task) :
  hasBlockedTasks (analyzeDependencies task) = true ↔ or_empty (blocked_by task) ≠ [].
Proof.
  simpl. rewrite bool_decide_eq_true. destruct (or_empty (blocked_by task)); simpl; [|split; [done|lia]].
  split; [lia|done].
Qed.

(** C3, amended: assignment is prevented exactly when some [depends_on]
    entry is not closed, whatever [blocked_by] holds; the badge is the error
    badge with the number of such entries when there is one, else the
    warning badge with the length of [blocked_by] when that list is not
    empty (its entries count whatever their status), else hidden. *)
Theorem assignment_gate_and_badge (task : Task) :
  let st := analyzeDependencies task in
  (canBeAssigned st = false ↔ hasBlockers st = true)
  ∧ (hasBlockers st = true ↔ ∃ dep, dep ∈ or_empty (depends_on task) ∧ ¬ closed dep)
  ∧ (∀ bb, canBeAssigned (analyzeDependencies (with_blocked_by task bb)) = canBeAssigned st)
  ∧ (hasBlockers st = true →
       getDependencyBadge st = error_badge (blockerCount st)
       ∧ blockerCount st = length (filter (λ dep, ¬ closed dep) (or_empty (depends_on task))))
  ∧ (hasBlockers st = false → or_empty (blocked_by task) ≠ [] →
       getDependencyBadge st = warning_badge (blockedCount st)
       ∧ blockedCount st = length (or_empty (blocked_by task)))
  ∧ (hasBlockers st = false → or_empty (blocked_by task) = [] →
       getDependencyBadge st = hidden_badge).
Proof.
  intros st. split; [|split; [|split; [|split; [|split]]]].
  - unfold st. rewrite canBeAssigned_negb, negb_false_iff. done.
  - unfold st. rewrite <-not_false_iff_true, hasBlockers_false. split.
    + intros H. apply not_Forall_Exists in H; [|intros dep; unfold closed; apply _].
      by apply Exists_exists in H.
    + intros (dep & Hin & Hnc) HF. rewrite Forall_forall in HF. by apply Hnc, HF.
  - reflexivity.
  - intros Hb. split.
    + unfold getDependencyBadge. by rewrite Hb.
    + unfold st. change (blockerCount (analyzeDependencies task))
        with (length (unresolvedBlockers (analyzeDependencies task))).
      by rewrite unresolvedBlockers_filter.
  - intros Hb Hbb. split; [|reflexivity].
    apply hasBlockedTasks_true in Hbb. unfold getDependencyBadge. fold st in Hbb. by rewrite Hb, Hbb.
  - intros Hb Hbb. unfold getDependencyBadge. rewrite Hb.
    assert (hasBlockedTasks st = false) as ->; [|done].
    apply not_true_is_false. unfold st. rewrite hasBlockedTasks_true. tauto.
Qed.

(** ** Termination of [buildDependencyChain] *)

Lemma find_task_Some (allTasks : list Task) (tid : string) (t : Task) :
  find_task allTasks tid = Some t → t ∈ allTasks ∧ id t = tid.
Proof.
  unfold find_task. destruct (list_find _ _) as [[i t']|] eqn:Hf; [|done].
  simpl. intros [= <-]. apply list_find_Some in Hf as (Hl & Hid & _).
  split; [|done]. apply list_elem_of_lookup. by exists i.
Qed.

Lemma find_task_first (l1 l2 : list Task) (t : Task) :
  (∀ t', t' ∈ l1 → id t' ≠ id t) → find_task (l1 ++ t :: l2) (id t) = Some t.
Proof.
  intros Hl1. unfold find_task.
  assert (list_find (λ t', id t' = id t) (l1 ++ t :: l2) = Some (length l1, t)) as ->; [|done].
  apply list_find_Some. split; [|split; [done|]].
  - by rewrite lookup_app_r, Nat.sub_diag.
  - intros j t' Hj Hlt. rewrite lookup_app_l in Hj by done.
    apply Hl1. by eapply list_elem_of_lookup_2.
Qed.

Lemma find_task_None (allTasks : list Task) (tid : string) :
  find_task allTasks tid = None ↔ ∀ t, t ∈ allTasks → id t ≠ tid.
Proof.
  unfold find_task. rewrite fmap_None, list_find_None, Forall_forall. done.
Qed.

Lemma unvisited_mono (allTasks : list Task) (v v' : gset string) :
  v ⊆ v' → (unvisited allTasks v' ≤ unvisited allTasks v)%nat.
Proof.
  intros Hsub. unfold unvisited. induction allTasks as [|t l IH]; [done|].
  rewrite !filter_cons. destruct (decide (id t ∉ v')), (decide (id t ∉ v)) as [|Hn]; simpl; try lia.
  exfalso. apply Hn. set_solver.
Qed.

Lemma unvisited_visit (allTasks : list Task) (v : gset string) (t : Task) :
  t ∈ allTasks → id t ∉ v →
  (unvisited allTasks ({[id t]} ∪ v) < unvisited allTasks v)%nat.
Proof.
  intros Hin Hv. unfold unvisited. induction Hin as [t l|t t' l Hin IH].
  - rewrite !filter_cons.
    destruct (decide (id t ∉ {[id t]} ∪ v)) as [Hn|_]; [set_solver|].
    destruct (decide (id t ∉ v)); [simpl|done].
    pose proof (unvisited_mono l v ({[id t]} ∪ v)) as Hm. unfold unvisited in Hm.
    apply Nat.lt_succ_r, Hm. set_solver.
  - rewrite !filter_cons.
    specialize (IH Hv).
    destruct (decide (id t' ∉ {[id t]} ∪ v)), (decide (id t' ∉ v)) as [|Hn]; simpl; try lia.
    exfalso. apply Hn. set_solver.
Qed.

Section forEach.
Context (allTasks : list Task).

(** The loop over [depends_on] returns when every recursive call it makes
    does, and never shrinks the visited set. *)
Lemma forEach_dep_total (rec : Task → gset string → option ChainState) (V : gset string) :
  (∀ bt v, bt ∈ allTasks → V ⊆ v → ∃ r, rec bt v = Some r ∧ v ⊆ r.2) →
  ∀ deps st, V ⊆ st.2 → ∃ r, forEach_dep rec allTasks deps st = Some r ∧ st.2 ⊆ r.2.
Proof.
  intros Hrec deps. induction deps as [|dep deps IH]; intros st Hst; simpl.
  - by exists st.
  - destruct (find_task allTasks (dep_id dep)) as [bt|] eqn:Hf; [|by apply IH].
    apply find_task_Some in Hf as [Hin _].
    destruct (Hrec bt st.2 Hin Hst) as ([sub v'] & -> & Hsub). simpl in Hsub.
    destruct (IH ((st.1 ++ {| level := 1; entry_task := bt |} :: (bump <$> sub))%list, v'))
      as (r & Hr & Hr2); [simpl; set_solver|].
    exists r. split; [done|]. simpl in Hr2. set_solver.
Qed.

(** A recursive call that answers more often leaves the loop's answers
    unchanged. *)
Lemma forEach_dep_mono (rec rec' : Task → gset string → option ChainState) :
  (∀ bt v r, rec bt v = Some r → rec' bt v = Some r) →
  ∀ deps st r, forEach_dep rec allTasks deps st = Some r →
               forEach_dep rec' allTasks deps st = Some r.
Proof.
  intros Hrec deps. induction deps as [|dep deps IH]; intros st r; simpl; [done|].
  destruct (find_task allTasks (dep_id dep)) as [bt|]; [|by apply IH].
  destruct (rec bt st.2) as [[sub v']|] eqn:Hr; [|done].
  rewrite (Hrec _ _ _ Hr). apply IH.
Qed.

Lemma buildDependencyChain_fuel_S (fuel : nat) :
  ∀ task visited r,
    buildDependencyChain fuel task allTasks visited = Some r →
    buildDependencyChain (S fuel) task allTasks visited = Some r.
Proof.
  induction fuel as [|fuel IH]; intros task visited r; [done|].
  intros H. simpl in H. change (buildDependencyChain (S (S fuel)) task allTasks visited)
    with (if decide (id task ∈ visited) then Some ([], visited)
          else match depends_on task with
               | Some deps =>
                   forEach_dep (λ bt v, buildDependencyChain (S fuel) bt allTasks v)
                     allTasks deps ([], {[id task]} ∪ visited)
               | None => Some ([], {[id task]} ∪ visited)
               end).
  destruct (decide (id task ∈ visited)); [done|].
  destruct (depends_on task) as [deps|]; [|done].
  revert H. apply forEach_dep_mono. intros bt v r'. apply IH.
Qed.

Lemma buildDependencyChain_fuel_le (fuel fuel' : nat) task visited r :
  (fuel ≤ fuel')%nat →
  buildDependencyChain fuel task allTasks visited = Some r →
  buildDependencyChain fuel' task allTasks visited = Some r.
Proof.
  induction 1 as [|fuel' _ IH]; [done|]. intros H. by apply buildDependencyChain_fuel_S, IH.
Qed.

(** A call on a task of [allTasks] returns within a stack depth of one
    more than the number of unvisited tasks. *)
Lemma buildDependencyChain_total_in (n : nat) :
  ∀ task visited,
    task ∈ allTasks → (unvisited allTasks visited ≤ n)%nat →
    ∃ r, buildDependencyChain (S n) task allTasks visited = Some r ∧ visited ⊆ r.2.
Proof.
  induction n as [|n IH]; intros task visited Hin Hn; simpl;
    (destruct (decide (id task ∈ visited)) as [Hv|Hv]; [by eexists|]);
    pose proof (unvisited_visit allTasks visited task Hin Hv) as Hlt; [lia|].
  destruct (depends_on task) as [deps|]; [|eexists; split; [done|simpl; set_solver]].
  destruct (forEach_dep_total
              (λ bt v, buildDependencyChain (S n) bt allTasks v) ({[id task]} ∪ visited))
    with (deps := deps) (st := ([] : list LevelEntry, {[id task]} ∪ visited))
    as (r & Hr & Hsub); [|done|].
  - intros bt v Hbt Hsub. apply IH; [done|].
    pose proof (unvisited_mono allTasks _ _ Hsub). lia.
  - exists r. split; [done|]. simpl in Hsub. set_solver.
Qed.

(** The top-level call, whose task need not be one of [allTasks]. *)
Lemma buildDependencyChain_total (task : Task) (visited : gset string) :
  ∃ r, buildDependencyChain (S (S (length allTasks))) task allTasks visited = Some r
       ∧ visited ⊆ r.2.
Proof.
  change (buildDependencyChain (S (S (length allTasks))) task allTasks visited)
    with (if decide (id task ∈ visited) then Some ([], visited)
          else match depends_on task with
               | Some deps =>
                   forEach_dep (λ bt v, buildDependencyChain (S (length allTasks)) bt allTasks v)
                     allTasks deps ([], {[id task]} ∪ visited)
               | None => Some ([], {[id task]} ∪ visited)
               end).
  destruct (decide (id task ∈ visited)); [by eexists|].
  destruct (depends_on task) as [deps|]; [|eexists; split; [done|simpl; set_solver]].
  destruct (forEach_dep_total
              (λ bt v, buildDependencyChain (S (length allTasks)) bt allTasks v)
              ({[id task]} ∪ visited))
    with (deps := deps) (st := ([] : list LevelEntry, {[id task]} ∪ visited))
    as (r & Hr & Hsub); [|done|].
  - intros bt v Hbt _. apply buildDependencyChain_total_in; [done|].
    unfold unvisited. apply length_filter.
  - exists r. split; [done|]. simpl in Hsub. set_solver.
Qed.
End forEach.

(** On the two-task cycle the call returns the partial chain: the second
    visit of the first task is not expanded. *)
Example buildDependencyChain_cycle :
  buildDependencyChain 4 cycle_a [cycle_a; cycle_b] ∅
  = Some ([ {| level := 1; entry_task := cycle_b |}; {| level := 2; entry_task := cycle_a |} ],
          {["jat-bbb"]} ∪ ({["jat-aaa"]} ∪ ∅)).
Proof. by vm_compute. Qed.

Lemma chain_id_inj (n m : nat) : chain_id n = chain_id m → n = m.
Proof. unfold chain_id. simpl. intros [= H]. by apply (inj pretty). Qed.

Lemma linear_chain_split (k m : nat) :
  (m < k)%nat →
  linear_chain k
  = ((linear_task <$> seq 0 m) ++ linear_task m :: (linear_task <$> seq (S m) (k - S m)))%list.
Proof.
  intros Hm. unfold linear_chain. replace k with (m + S (k - S m))%nat at 1 by lia.
  by rewrite seq_app, fmap_app.
Qed.

Lemma find_task_linear (k m : nat) :
  (m < k)%nat → find_task (linear_chain k) (chain_id m) = Some (linear_task m).
Proof.
  intros Hm. rewrite (linear_chain_split k m Hm).
  apply (find_task_first _ _ (linear_task m)).
  intros t (j & -> & Hj)%list_elem_of_fmap Heq. apply chain_id_inj in Heq.
  apply elem_of_seq in Hj. lia.
Qed.

(** A call on the task [i] of a chain of [k] tasks, none of them visited
    from [i] on, needs more than [fuel] nested calls when [i + fuel < k]. *)
Lemma linear_chain_overflow (k fuel : nat) :
  ∀ i visited,
    (i + fuel < k)%nat → (∀ j, (i ≤ j)%nat → chain_id j ∉ visited) →
    buildDependencyChain fuel (linear_task i) (linear_chain k) visited = None.
Proof.
  induction fuel as [|fuel IH]; intros i visited Hlt Hv; [done|]. simpl.
  rewrite decide_False by (apply Hv; lia).
  rewrite find_task_linear by lia. rewrite IH; [done|lia|].
  intros j Hj. rewrite elem_of_union, elem_of_singleton.
  intros [Heq|Hin]; [apply chain_id_inj in Heq; lia|]. apply (Hv j); [lia|done].
Qed.

(** Whatever the depth the call stack allows, an acyclic chain one task
    longer makes the call fail. *)
Lemma deep_chain_exceeds_stack (fuel : nat) :
  buildDependencyChain fuel (linear_task 0) (linear_chain (S fuel)) ∅ = None.
Proof.
  apply linear_chain_overflow; [lia|]. intros j _. apply not_elem_of_empty.
Qed.

(** C4, as stated, fails: the recursion is as deep as the dependency chain
    is long, cycle or no cycle.  With room for three nested calls the
    acyclic chain of four tasks makes the call fail, where room for four
    gives the chain of the three blockers; and whatever room the call stack
    has, the acyclic chain one task longer makes the call fail. *)
Lemma deep_chain_fails :
  buildDependencyChain 3 (linear_task 0) (linear_chain 4) ∅ = None
  ∧ (∃ chain visited',
       buildDependencyChain 4 (linear_task 0) (linear_chain 4) ∅ = Some (chain, visited')
       ∧ level <$> chain = [1; 2; 3]%nat
       ∧ (λ item, id (entry_task item)) <$> chain = ["jat-1"; "jat-2"; "jat-3"])
  ∧ (∀ stack, buildDependencyChain stack (linear_task 0) (linear_chain (S stack)) ∅ = None).
Proof.
  split; [exact (deep_chain_exceeds_stack 3)|]. split; [|exact deep_chain_exceeds_stack].
  eexists _, _. split; [by vm_compute|]. split; reflexivity.
Qed.

(** C4, amended: for every task, every finite task list (cyclic or not) and
    every visited set, [buildDependencyChain] returns a chain once the call
    stack may grow to the number of tasks plus two, and the same one for
    every larger bound; the visited set only grows; and a task whose
    identifier is already visited is not expanded: the call returns the
    empty chain and leaves the set as it is.  So a cycle costs no depth, and
    only a stack smaller than the task list can make the call fail. *)
Theorem buildDependencyChain_terminates (task : Task) (allTasks : list Task)
    (visited : gset string) :
  ∃ chain visited',
    (∀ fuel, (length allTasks + 2 ≤ fuel)%nat →
       buildDependencyChain fuel task allTasks visited = Some (chain, visited'))
    ∧ visited ⊆ visited'
    ∧ (id task ∈ visited → chain = [] ∧ visited' = visited).
Proof.
  destruct (buildDependencyChain_total allTasks task visited) as ([chain visited'] & Hr & Hsub).
  exists chain, visited'. split; [|split; [done|]].
  - intros fuel Hfuel. eapply buildDependencyChain_fuel_le; [|exact Hr]. lia.
  - intros Hv. simpl in Hr. rewrite decide_True in Hr by done. by simplify_eq.
Qed.

(** ** Project colours ([getProjectColor]) *)

Lemma split_head (sep : ascii) (s : string) : ∃ seg segs, split sep s = seg :: segs.
Proof.
  destruct s as [|c s]; simpl; [by eexists _, _|].
  destruct (Ascii.eqb c sep); [by eexists _, _|].
  destruct (split sep s); by eexists _, _.
Qed.

Lemma projectPrefix_before_first_dash (taskId : string) :
  projectPrefix taskId = Some (before_first_dash taskId).
Proof.
  unfold projectPrefix. induction taskId as [|c s IH]; simpl; [done|].
  destruct (Ascii.eqb c "-"); [done|].
  destruct (split_head "-" s) as (seg & segs & Hs). rewrite Hs in IH |- *.
  simpl in *. by simplify_eq.
Qed.

(** C10, as stated, fails: the empty identifier and ["-abc"] have the same
    (empty) substring before the first ['-'], yet the first is grey and the
    second gets the first palette colour. *)
Lemma getProjectColor_empty_prefix_differs :
  before_first_dash "" = before_first_dash "-abc"
  ∧ getProjectColor "" = Some "#6b7280"
  ∧ getProjectColor "-abc" = Some "#3b82f6"
  ∧ getProjectColor "" ≠ getProjectColor "-abc".
Proof. by vm_compute. Qed.

Lemma getProjectColor_nonempty (taskId : string) :
  taskId ≠ "" →
  getProjectColor taskId
  = projectColorPalette !! Z.to_nat (Z.rem (Z.abs (hash_of (before_first_dash taskId))) 16).
Proof.
  intros Hne. unfold getProjectColor. rewrite bool_decide_eq_false_2 by done.
  by rewrite projectPrefix_before_first_dash.
Qed.

(** C10, amended: for any two non-empty identifiers with the same substring
    before the first ['-'] the colour is the same; for every non-empty
    identifier it is one of the 16 palette colours; for the empty identifier
    it is ['#6b7280'] (also when another identifier has an empty prefix). *)
Theorem getProjectColor_depends_on_prefix (a b : string) :
  (a ≠ "" → b ≠ "" → before_first_dash a = before_first_dash b →
     getProjectColor a = getProjectColor b)
  ∧ (a ≠ "" → ∃ c, getProjectColor a = Some c ∧ c ∈ projectColorPalette)
  ∧ length projectColorPalette = 16%nat
  ∧ getProjectColor "" = Some "#6b7280".
Proof.
  split; [|split; [|done]].
  - intros Ha Hb Hp. by rewrite !getProjectColor_nonempty, Hp.
  - intros Ha. rewrite getProjectColor_nonempty by done.
    set (h := hash_of _).
    assert (0 ≤ Z.rem (Z.abs h) 16 < 16) as Hi by (apply Z.rem_bound_pos; lia).
    destruct (lookup_lt_is_Some_2 projectColorPalette (Z.to_nat (Z.rem (Z.abs h) 16)))
      as [c Hc]; [simpl; lia|].
    exists c. split; [done|]. by eapply list_elem_of_lookup_2.
Qed.

Lemma getProjectColor_depends_on_prefix_witness :
  getProjectColor "jat-abc" = getProjectColor "jat-x9z".
Proof.
  apply (proj1 (getProjectColor_depends_on_prefix "jat-abc" "jat-x9z")); done.
Defined.

(** ** The sort of [getTasks] *)

Lemma StronglySorted_impl {A} (R R' : relation A) (l : list A) :
  (∀ a b, R a b → R' a b) → StronglySorted R l → StronglySorted R' l.
Proof.
  intros HR. induction 1 as [|x l Hl IH Hx]; constructor; [done|].
  eapply Forall_impl; [exact Hx|]. intros y. apply HR.
Qed.

Section js_sort_facts.
Context {A : Type} (comparefn : A → A → Z).

(** A consistent comparator: any two elements are ordered one way or the
    other, and the order is transitive. *)
Hypothesis before_total : ∀ a b, before comparefn a b ∨ before comparefn b a.
Hypothesis before_trans :
  ∀ a b c, before comparefn a b → before comparefn b c → before comparefn a c.

Lemma sort_insert_Permutation (x : A) (l : list A) : sort_insert comparefn x l ≡ₚ x :: l.
Proof.
  induction l as [|y l IH]; simpl; [done|].
  destruct (comparefn x y <=? 0); [done|]. by rewrite IH, Permutation_swap.
Qed.

Lemma js_sort_Permutation (l : list A) : js_sort comparefn l ≡ₚ l.
Proof.
  induction l as [|x l IH]; simpl; [done|].
  change (foldr (sort_insert comparefn) [] l) with (js_sort comparefn l).
  by rewrite sort_insert_Permutation, IH.
Qed.

Lemma sort_insert_sorted (x : A) (l : list A) :
  StronglySorted (before comparefn) l → StronglySorted (before comparefn) (sort_insert comparefn x l).
Proof.
  induction 1 as [|y l Hl IH Hy]; simpl; [by repeat constructor|].
  destruct (comparefn x y <=? 0) eqn:Hc.
  - apply Z.leb_le in Hc. constructor; [by constructor|].
    constructor; [done|]. eapply Forall_impl; [exact Hy|]. intros z. by apply before_trans.
  - apply Z.leb_gt in Hc. constructor; [done|].
    rewrite sort_insert_Permutation. constructor; [|done].
    destruct (before_total x y) as [Hxy|Hyx]; [unfold before in Hxy; lia | done].
Qed.

Lemma js_sort_sorted (l : list A) : StronglySorted (before comparefn) (js_sort comparefn l).
Proof.
  induction l as [|x l IH]; simpl; [constructor|]. by apply sort_insert_sorted.
Qed.
End js_sort_facts.

Lemma compare_tasks_order (a b : Task) : compare_tasks a b ≤ 0 ↔ task_order a b.
Proof.
  unfold compare_tasks, task_order. case_bool_decide; lia.
Qed.

(** C9: whatever the query options and the project stores, the list
    [getTasks] returns is sorted by priority ascending (priority 0 first)
    and, among tasks of equal priority, by creation time descending. *)
Theorem getTasks_sorted (o : Options) (projects : list Project) :
  StronglySorted task_order (getTasks o projects).
Proof.
  unfold getTasks. destruct (_ && _); [constructor|].
  apply (StronglySorted_impl (before compare_tasks)).
  - intros a b. apply compare_tasks_order.
  - apply js_sort_sorted.
    + intros a b. unfold before. rewrite !compare_tasks_order. unfold task_order. lia.
    + intros a b c. unfold before. rewrite !compare_tasks_order. unfold task_order. lia.
Qed.

(** ** Lookup by identifier ([getTaskById]) and the task-detail route *)

Lemma head_filter_None {A} (P : A → Prop) `{!∀ x, Decision (P x)} (l : list A) :
  head (filter P l) = None ↔ ∀ x, x ∈ l → ¬ P x.
Proof.
  induction l as [|y l IH].
  - split; [|done]. intros _ x Hx. by apply not_elem_of_nil in Hx.
  - rewrite filter_cons. destruct (decide (P y)) as [Hy|Hy]; simpl.
    + split; [done|]. intros Hall. destruct (Hall y); [left|done].
    + rewrite IH. split.
      * intros Hall x [->|Hx]%elem_of_cons; [done|by apply Hall].
      * intros Hall x Hx. apply Hall. by right.
Qed.

Lemma get_issue_None (d : Db) (taskId : string) :
  get_issue d taskId = None ↔ ∀ i, i ∈ issues d → i_id i ≠ taskId.
Proof. apply head_filter_None. Qed.

Lemma get_issue_Some (d : Db) (taskId : string) (i : IssueRow) :
  get_issue d taskId = Some i → i ∈ issues d ∧ i_id i = taskId.
Proof.
  intros H%head_Some_elem_of. by apply list_elem_of_filter in H as [? ?].
Qed.

(** The lookup finds nothing exactly when no store that can be read holds
    an issue with that identifier. *)
Lemma getTaskById_None (taskId : string) (projects : list Project) :
  getTaskById taskId projects = None
  ↔ ∀ p d i, p ∈ projects → db p = Some d → i ∈ issues d → i_id i ≠ taskId.
Proof.
  induction projects as [|p0 rest IH]; simpl.
  - split; [|done]. intros _ p d i Hp. by apply not_elem_of_nil in Hp.
  - destruct (db p0) as [d0|] eqn:Hdb.
    + destruct (get_issue d0 taskId) as [i0|] eqn:Hget.
      * split; [done|]. intros H. apply get_issue_Some in Hget as [Hin Hid].
        destruct (H p0 d0 i0); [left|done..].
      * rewrite IH. rewrite get_issue_None in Hget. split.
        -- intros H p d i [->|Hp]%elem_of_cons Hd Hi; [|by eapply H].
           simplify_eq. by apply Hget.
        -- intros H p d i Hp. apply H. by right.
    + rewrite IH. split.
      * intros H p d i [->|Hp]%elem_of_cons Hd Hi; [congruence|by eapply H].
      * intros H p d i Hp. apply H. by right.
Qed.

(** What the lookup finds is an issue of a readable store, completed by
    [full_task]. *)
Lemma getTaskById_Some (taskId : string) (projects : list Project) (task : Task) :
  getTaskById taskId projects = Some task →
  ∃ p d i, p ∈ projects ∧ db p = Some d ∧ i ∈ issues d ∧ i_id i = taskId
           ∧ task = full_task p d i taskId.
Proof.
  induction projects as [|p0 rest IH]; simpl; [done|].
  destruct (db p0) as [d0|] eqn:Hdb.
  - destruct (get_issue d0 taskId) as [i0|] eqn:Hget.
    + intros [= <-]. apply get_issue_Some in Hget as [Hin Hid].
      exists p0, d0, i0. split; [left|done].
    + intros (p & d & i & Hp & H)%IH. exists p, d, i. split; [by right|done].
  - intros (p & d & i & Hp & H)%IH. exists p, d, i. split; [by right|done].
Qed.

Lemma GET_not_found (projects : list Project) (taskId : string) :
  http_status (GET projects taskId) = outcome_status NotFound
  ↔ getTaskById taskId projects = None.
Proof.
  unfold GET. destruct (getTaskById taskId projects); simpl; [split; [lia|done]|done].
Qed.

(** C6: the task-detail handler answers NotFound, with status 404, exactly
    when [getTaskById] returns null, that is, when no project store that can
    be read holds the task; otherwise it answers the task found, whose
    identifier is the one asked for, with status 200. *)
Theorem task_detail_not_found_iff (projects : list Project) (taskId : string) :
  (http_status (GET projects taskId) = outcome_status NotFound
   ↔ getTaskById taskId projects = None)
  ∧ (getTaskById taskId projects = None
     ↔ ∀ p d i, p ∈ projects → db p = Some d → i ∈ issues d → i_id i ≠ taskId)
  ∧ (getTaskById taskId projects = None →
     GET projects taskId = {| body := ErrorBody "Task not found" None; http_status := 404 |})
  ∧ (∀ task, getTaskById taskId projects = Some task →
     GET projects taskId = {| body := TaskBody task; http_status := 200 |}
     ∧ id task = taskId).
Proof.
  split; [|split; [apply getTaskById_None|split]].
  - apply GET_not_found.
  - unfold GET. by intros ->.
  - intros task Hsome. unfold GET. rewrite Hsome. split; [done|].
    apply getTaskById_Some in Hsome as (p & d & i & _ & _ & _ & Hid & ->). done.
Qed.

(** ** Identifier format: where it is validated *)

(** C5, as stated, fails for lookup requests: the task-detail handler does
    not validate the format.  An identifier that fails it is looked up all
    the same; the answer is NotFound (404) when the store lacks it and the
    task itself (200) when the store holds it, and in neither case
    InvalidFormat (400). *)
Lemma lookup_skips_format_validation :
  valid_task_id "invalid-id" = false
  ∧ GET hyphen_store "invalid-id"
    = {| body := ErrorBody "Task not found" None; http_status := 404 |}
  ∧ valid_task_id "jomarchy-agent-tools-ab1" = false
  ∧ http_status (GET hyphen_store "jomarchy-agent-tools-ab1") = 200
  ∧ outcome_status InvalidFormat = 400.
Proof. by vm_compute. Qed.

(** C5, amended: an assignment request whose identifier fails the format
    (or is missing) is answered InvalidFormat, status 400, before any Task
    Store command runs and with the store untouched; a task-detail lookup
    never answers InvalidFormat: whatever the identifier's format, the
    store is consulted, and the answer is NotFound exactly when the lookup
    finds nothing. *)
Theorem invalid_format_before_lookup {Store : Type}
    (bd_show : Store → string → option (list Task))
    (bd_update_assignee : Store → string → string → option Store)
    (st : Store) (req : AssignRequest) (projects : list Project) :
  valid_task_id (default "" (taskId req)) = false →
  (∃ resp, POST bd_show bd_update_assignee st (Some req) = (resp, st, [])
           ∧ http_status resp = outcome_status InvalidFormat)
  ∧ http_status (GET projects (default "" (taskId req))) ≠ outcome_status InvalidFormat
  ∧ (http_status (GET projects (default "" (taskId req))) = outcome_status NotFound
     ↔ getTaskById (default "" (taskId req)) projects = None).
Proof.
  intros Hfmt. split; [|split].
  - unfold POST. destruct (negb (truthy (taskId req)) || negb (truthy (agentName req)));
      [by eexists|].
    rewrite Hfmt. by eexists.
  - unfold GET. by destruct (getTaskById _ projects).
  - apply GET_not_found.
Qed.

Lemma invalid_format_before_lookup_witness :
  ∃ resp, POST demo_show demo_update [] (Some bad_request) = (resp, [], [])
          ∧ http_status resp = outcome_status InvalidFormat.
Proof.
  exact (proj1 (invalid_format_before_lookup demo_show demo_update [] bad_request
                  hyphen_store eq_refl)).
Defined.

(** The same handler on a well-formed identifier does reach the store. *)
Example assignment_reaches_store :
  POST demo_show demo_update [] (Some {| taskId := Some "jat-abc"; agentName := Some "Agent1" |})
  = ({| body := AssignedBody "Task jat-abc assigned to Agent1" (Some (task_of "jat-abc" None None));
        http_status := 200 |},
     [("jat-abc", "Agent1")],
     [BdShow "jat-abc"; BdUpdateAssignee "jat-abc" "Agent1"; BdShow "jat-abc"]).
Proof. by vm_compute. Qed.

(** ** Two assignment calls in flight *)

Import AssignRace.

Section race_facts.
Context {Store : Type}.
Variable bd_show : Store → string → option (list Task).
Variable bd_update_assignee : Store → string → string → option Store.

(** A call on its own takes three steps from [start] to the answer and
    the store of [POST]. *)
Lemma POST_as_steps (st : Store) (request : option AssignRequest) :
  step bd_show bd_update_assignee
    (step bd_show bd_update_assignee (step bd_show bd_update_assignee (st, start request)))
  = ((POST bd_show bd_update_assignee st request).1.2,
     Done (POST bd_show bd_update_assignee st request).1.1).
Proof.
  unfold POST, start. destruct request as [req|]; [|done].
  destruct (negb (truthy (taskId req)) || negb (truthy (agentName req))); [done|].
  destruct (negb (valid_task_id _)); [done|]. simpl.
  destruct (bd_show st _) as [[|t ts]|]; [done| |done]. simpl.
  destruct (bd_update_assignee st _ _) as [st'|]; [|done]. simpl.
  by destruct (bd_show st' _).
Qed.

Lemma step_todo (st : Store) (c : Call) :
  (todo (step bd_show bd_update_assignee (st, c)).2 ≤ pred (todo c))%nat.
Proof.
  destruct c as [tid agent|tid agent|tid agent|resp]; simpl.
  - destruct (bd_show st tid) as [[|? ?]|]; simpl; lia.
  - destruct (bd_update_assignee st tid agent); simpl; lia.
  - destruct (bd_show st tid); simpl; lia.
  - lia.
Qed.

Lemma run_todo (sched : list bool) :
  ∀ st c1 c2,
    (todo (run bd_show bd_update_assignee sched (st, c1, c2)).1.2
     ≤ todo c1 - turns true sched)%nat
    ∧ (todo (run bd_show bd_update_assignee sched (st, c1, c2)).2
       ≤ todo c2 - turns false sched)%nat.
Proof.
  induction sched as [|first sched IH]; intros st c1 c2; [unfold turns; simpl; lia|].
  destruct first.
  - change (run bd_show bd_update_assignee (true :: sched) (st, c1, c2))
      with (let '(st', c1') := step bd_show bd_update_assignee (st, c1) in
            run bd_show bd_update_assignee sched (st', c1', c2)).
    pose proof (step_todo st c1) as Hs.
    destruct (step bd_show bd_update_assignee (st, c1)) as [st' c1'].
    destruct (IH st' c1' c2) as [H1 H2]. simpl in Hs.
    unfold turns in *. rewrite filter_cons_True by done.
    rewrite filter_cons_False by done. simpl. lia.
  - change (run bd_show bd_update_assignee (false :: sched) (st, c1, c2))
      with (let '(st', c2') := step bd_show bd_update_assignee (st, c2) in
            run bd_show bd_update_assignee sched (st', c1, c2')).
    pose proof (step_todo st c2) as Hs.
    destruct (step bd_show bd_update_assignee (st, c2)) as [st' c2'].
    destruct (IH st' c1 c2') as [H1 H2]. simpl in Hs.
    unfold turns in *. rewrite filter_cons_False by done.
    rewrite filter_cons_True by done. simpl. lia.
Qed.

Variable st0 : Store.
Variable tid : string.
Hypothesis Hshown : shown bd_show bd_update_assignee st0 tid.
Hypothesis Hcas : compare_and_set bd_update_assignee st0 tid.

Lemma step_waiting (c : Call) (st' : Store) (c' : Call) :
  waiting tid c → step bd_show bd_update_assignee (st0, c) = (st', c') →
  (st' = st0 ∧ waiting tid c')
  ∨ (refuses bd_update_assignee st' tid ∧ shows bd_show st' tid ∧ winner tid c').
Proof.
  destruct Hshown as [(t & ts & Hshow) Hafter]. destruct Hcas as [Hfree Hlock].
  intros [agent|agent]; simpl.
  - rewrite Hshow. intros [= <- <-]. left. split; [done|constructor].
  - destruct (Hfree agent) as [st1 Hup]. rewrite Hup. intros [= <- <-]. right.
    split; [by eapply Hlock|]. split; [by eapply Hafter|constructor].
Qed.

Lemma step_loser (st : Store) (c : Call) (st' : Store) (c' : Call) :
  refuses bd_update_assignee st tid → shows bd_show st tid → loser tid c →
  step bd_show bd_update_assignee (st, c) = (st', c') → st' = st ∧ loser tid c'.
Proof.
  intros Href (t & ts & Hshow) [c0 [agent|agent]|resp Hresp]; simpl.
  - rewrite Hshow. intros [= <- <-]. split; [done|]. do 2 constructor.
  - rewrite (Href agent). intros [= <- <-]. split; [done|]. by constructor.
  - intros [= <- <-]. split; [done|]. by constructor.
Qed.

Lemma step_winner (st : Store) (c : Call) (st' : Store) (c' : Call) :
  shows bd_show st tid → winner tid c →
  step bd_show bd_update_assignee (st, c) = (st', c') → st' = st ∧ winner tid c'.
Proof.
  intros (t & ts & Hshow) [agent|resp Hresp]; simpl.
  - rewrite Hshow. intros [= <- <-]. split; [done|]. by constructor.
  - intros [= <- <-]. split; [done|]. by constructor.
Qed.

Lemma run_inv (sched : list bool) :
  ∀ s, race_inv bd_show bd_update_assignee st0 tid s →
       race_inv bd_show bd_update_assignee st0 tid (run bd_show bd_update_assignee sched s).
Proof.
  induction sched as [|first sched IH]; intros [[st c1] c2] Hinv; [done|].
  destruct first.
  - change (run bd_show bd_update_assignee (true :: sched) (st, c1, c2))
      with (let '(st', c1') := step bd_show bd_update_assignee (st, c1) in
            run bd_show bd_update_assignee sched (st', c1', c2)).
    destruct (step bd_show bd_update_assignee (st, c1)) as [st' c1'] eqn:Hstep. apply IH.
    destruct Hinv as [(-> & Hw1 & Hw2)|(Href & Hsh & [[Hw Hl]|[Hl Hw]])].
    + destruct (step_waiting c1 st' c1' Hw1 Hstep) as [[-> Hw]|(Href & Hsh & Hw)].
      * by left.
      * right. split; [done|]. split; [done|]. left. split; [done|]. by constructor.
    + destruct (step_winner st c1 st' c1' Hsh Hw Hstep) as [-> Hw'].
      right. split; [done|]. split; [done|]. by left.
    + destruct (step_loser st c1 st' c1' Href Hsh Hl Hstep) as [-> Hl'].
      right. split; [done|]. split; [done|]. by right.
  - change (run bd_show bd_update_assignee (false :: sched) (st, c1, c2))
      with (let '(st', c2') := step bd_show bd_update_assignee (st, c2) in
            run bd_show bd_update_assignee sched (st', c1, c2')).
    destruct (step bd_show bd_update_assignee (st, c2)) as [st' c2'] eqn:Hstep. apply IH.
    destruct Hinv as [(-> & Hw1 & Hw2)|(Href & Hsh & [[Hw Hl]|[Hl Hw]])].
    + destruct (step_waiting c2 st' c2' Hw2 Hstep) as [[-> Hw]|(Href & Hsh & Hw)].
      * by left.
      * right. split; [done|]. split; [done|]. right. split; [by constructor|done].
    + destruct (step_loser st c2 st' c2' Href Hsh Hl Hstep) as [-> Hl'].
      right. split; [done|]. split; [done|]. by left.
    + destruct (step_winner st c2 st' c2' Hsh Hw Hstep) as [-> Hw'].
      right. split; [done|]. split; [done|]. by right.
Qed.
End race_facts.

Lemma start_request_of (tid agent : string) :
  valid_task_id tid = true → agent ≠ "" → start (request_of tid agent) = AtShow tid agent.
Proof.
  intros Hv Ha. unfold start, request_of. simpl. rewrite Hv.
  rewrite (bool_decide_eq_false_2 (agent = "")) by done.
  rewrite (bool_decide_eq_false_2 (tid = "")); [done|]. by intros ->.
Qed.

Lemma winner_Done (tid : string) (resp : Response) :
  winner tid (Done resp) → http_status resp = outcome_status Assigned.
Proof. by inversion 1. Qed.

Lemma loser_Done (tid : string) (resp : Response) :
  loser tid (Done resp) → http_status resp = outcome_status InternalError.
Proof. inversion 1 as [c Hw|]; [inversion Hw|done]. Qed.

Lemma waiting_not_Done (tid : string) (resp : Response) : ¬ waiting tid (Done resp).
Proof. inversion 1. Qed.

Lemma todo_0_Done (c : Call) : todo c = 0%nat → ∃ resp, c = Done resp.
Proof. destruct c; try done. by eexists. Qed.

(** C8, as stated, fails: the handler never looks at the assignee, so with
    a store whose update writes the assignee over the old one both calls on
    one ready, unassigned task are answered Assigned, whether the second
    starts after the first has been answered or their commands alternate;
    the task ends up with the second agent, and in the alternating run the
    first call's answer already shows it.  Two requests handled by [POST]
    one after the other give the same two answers. *)
Lemma both_calls_assigned :
  (∃ st r1 r2,
     run store_show store_update [true; true; true; false; false; false]
       (free_store, start (request_of "jat-abc" "Agent1"),
        start (request_of "jat-abc" "Agent2")) = (st, Done r1, Done r2)
     ∧ http_status r1 = outcome_status Assigned
     ∧ http_status r2 = outcome_status Assigned
     ∧ assignee <$> st = [Some "Agent2"])
  ∧ (∃ st r1 r2 t,
       run store_show store_update [true; false; true; false; true; false]
         (free_store, start (request_of "jat-abc" "Agent1"),
          start (request_of "jat-abc" "Agent2")) = (st, Done r1, Done r2)
       ∧ http_status r1 = outcome_status Assigned
       ∧ http_status r2 = outcome_status Assigned
       ∧ body r1 = AssignedBody "Task jat-abc assigned to Agent1" (Some t)
       ∧ assignee t = Some "Agent2")
  ∧ (∃ r1 st1 ops1 r2 st2 ops2,
       POST store_show store_update free_store (request_of "jat-abc" "Agent1")
       = (r1, st1, ops1)
       ∧ POST store_show store_update st1 (request_of "jat-abc" "Agent2") = (r2, st2, ops2)
       ∧ http_status r1 = outcome_status Assigned
       ∧ http_status r2 = outcome_status Assigned).
Proof.
  split; [|split].
  - eexists _, _, _. split; [by vm_compute|]. by vm_compute.
  - eexists _, _, _, _. split; [by vm_compute|]. by vm_compute.
  - eexists _, _, _, _, _, _. split; [by vm_compute|]. split; [by vm_compute|]. by vm_compute.
Qed.

(** C8, amended: when the Task Store shows the task, lets an update of its
    assignee through while nobody holds it and refuses every update once
    one has gone through (compare-and-set), two calls of the assignment
    handler on that task, with well-formed identifier and agent names,
    are never both answered Assigned, however their store commands
    alternate; whenever both have been answered, exactly one was answered
    Assigned (200) and the other 'Failed to assign task' (500); and both
    are answered once each has had three turns. *)
Theorem one_call_assigned {Store : Type}
    (bd_show : Store → string → option (list Task))
    (bd_update_assignee : Store → string → string → option Store)
    (st0 : Store) (tid agent1 agent2 : string) :
  valid_task_id tid = true → agent1 ≠ "" → agent2 ≠ "" →
  shown bd_show bd_update_assignee st0 tid →
  compare_and_set bd_update_assignee st0 tid →
  (∀ sched st c1 c2,
     run bd_show bd_update_assignee sched
       (st0, start (request_of tid agent1), start (request_of tid agent2)) = (st, c1, c2) →
     ¬ (answered c1 Assigned ∧ answered c2 Assigned)
     ∧ (∀ r1 r2, c1 = Done r1 → c2 = Done r2 →
          (http_status r1 = outcome_status Assigned
           ∧ http_status r2 = outcome_status InternalError)
          ∨ (http_status r1 = outcome_status InternalError
             ∧ http_status r2 = outcome_status Assigned)))
  ∧ (∀ sched, complete sched →
     ∃ st r1 r2,
       run bd_show bd_update_assignee sched
         (st0, start (request_of tid agent1), start (request_of tid agent2))
       = (st, Done r1, Done r2)).
Proof.
  intros Hv Ha1 Ha2 Hshown Hcas.
  rewrite (start_request_of tid agent1 Hv Ha1), (start_request_of tid agent2 Hv Ha2).
  assert (∀ sched st c1 c2,
            run bd_show bd_update_assignee sched (st0, AtShow tid agent1, AtShow tid agent2)
            = (st, c1, c2) →
            ∀ r1 r2, c1 = Done r1 → c2 = Done r2 →
              (http_status r1 = outcome_status Assigned
               ∧ http_status r2 = outcome_status InternalError)
              ∨ (http_status r1 = outcome_status InternalError
                 ∧ http_status r2 = outcome_status Assigned)) as Hone.
  { intros sched st c1 c2 Hrun r1 r2 -> ->.
    assert (race_inv bd_show bd_update_assignee st0 tid (st, Done r1, Done r2)) as Hinv.
    { rewrite <-Hrun. apply run_inv; [done..|]. left. split; [done|]. split; constructor. }
    destruct Hinv as [(_ & Hw & _)|(_ & _ & [[Hw Hl]|[Hl Hw]])].
    - by apply waiting_not_Done in Hw.
    - left. split; [by eapply winner_Done|by eapply loser_Done].
    - right. split; [by eapply loser_Done|by eapply winner_Done]. }
  split.
  - intros sched st c1 c2 Hrun. split; [|by eapply Hone].
    intros [(r1 & -> & H1) (r2 & -> & H2)].
    destruct (Hone sched st _ _ Hrun r1 r2 eq_refl eq_refl) as [[_ H]|[H _]];
      [rewrite H2 in H|rewrite H1 in H]; done.
  - intros sched [Ht Hf].
    pose proof (run_todo bd_show bd_update_assignee sched st0
                  (AtShow tid agent1) (AtShow tid agent2)) as [H1 H2].
    destruct (run _ _ sched _) as [[st c1] c2]. simpl in H1, H2.
    destruct (todo_0_Done c1) as [r1 ->]; [lia|].
    destruct (todo_0_Done c2) as [r2 ->]; [lia|]. by exists st, r1, r2.
Qed.

Lemma one_call_assigned_witness :
  ∃ st r1 r2,
    run store_show store_claim [true; false; true; false; true; false]
      (free_store, start (request_of "jat-abc" "Agent1"),
       start (request_of "jat-abc" "Agent2")) = (st, Done r1, Done r2).
Proof.
  refine (proj2 (one_call_assigned store_show store_claim free_store
                   "jat-abc" "Agent1" "Agent2" _ _ _ _ _) _ _).
  - reflexivity.
  - discriminate.
  - discriminate.
  - split.
    + eexists _, _. reflexivity.
    + intros agent st' Hup. vm_compute in Hup. injection Hup as <-.
      eexists _, _. reflexivity.
  - split.
    + intros agent. eexists. reflexivity.
    + intros agent st' Hup other. vm_compute in Hup. injection Hup as <-. reflexivity.
  - split; vm_compute; lia.
Defined.

(** With the compare-and-set store the first update wins, whoever asked
    first: here the second call's, and the first call is answered 500 before
    the second is answered at all. *)
Example claim_store_race :
  (run store_show store_claim [true; false; false; true; false]
     (free_store, start (request_of "jat-abc" "Agent1"),
      start (request_of "jat-abc" "Agent2"))).1.2
  = Done {| body := ErrorBody "Failed to assign task" None; http_status := 500 |}
  ∧ http_status <$>
      (λ c, match c with Done resp => Some resp | _ => None end)
        (run store_show store_claim [true; false; false; true; false]
           (free_store, start (request_of "jat-abc" "Agent1"),
            start (request_of "jat-abc" "Agent2"))).2
    = Some 200.
Proof. by vm_compute. Qed.

(** ** Ready tasks ([getReadyTasks]) *)

Lemma existsb_not_closed (deps : list DepRef) :
  existsb not_closed deps = false ↔ Forall closed deps.
Proof.
  induction deps as [|dep deps IH]; simpl; [by split; [constructor|]|].
  rewrite orb_false_iff, IH, Forall_cons. rewrite <-not_true_iff_false, not_closed_true.
  unfold closed. destruct (decide (dep_status dep = Some "closed")); tauto.
Qed.

Lemma head_filter_unique {A B} `{!EqDecision B} (f : A → B) (l : list A) (x : A) :
  NoDup (f <$> l) → x ∈ l → head (filter (λ y, f y = f x) l) = Some x.
Proof.
  induction l as [|y l IH]; intros Hnd Hx; [by apply not_elem_of_nil in Hx|].
  rewrite fmap_cons, NoDup_cons in Hnd. destruct Hnd as [Hy Hnd].
  rewrite filter_cons. destruct (decide (f y = f x)) as [Hyx|Hyx]; simpl.
  - apply elem_of_cons in Hx as [->|Hx]; [done|].
    destruct Hy. rewrite Hyx. by apply list_elem_of_fmap_2.
  - apply elem_of_cons in Hx as [->|Hx]; [done|]. by apply IH.
Qed.

(** With identifiers unique across the readable stores, the lookup of an
    issue's identifier finds that very issue, in its own store. *)
Lemma getTaskById_unique (projects : list Project) (p : Project) (d : Db) (i : IssueRow) :
  NoDup (all_ids projects) → p ∈ projects → db p = Some d → i ∈ issues d →
  getTaskById (i_id i) projects = Some (full_task p d i (i_id i)).
Proof.
  unfold all_ids. induction projects as [|p0 rest IH]; intros Hnd Hp Hd Hi;
    [by apply not_elem_of_nil in Hp|].
  rewrite bind_cons, NoDup_app in Hnd. destruct Hnd as (Hnd0 & Hdisj & Hnd).
  simpl. apply elem_of_cons in Hp as [<-|Hp].
  - rewrite Hd. unfold get_issue. unfold project_ids in Hnd0. rewrite Hd in Hnd0.
    by rewrite (head_filter_unique i_id (issues d) i Hnd0 Hi).
  - assert (i_id i ∈ rest ≫= project_ids) as Hin.
    { apply list_elem_of_bind. exists p. split; [|done].
      unfold project_ids. rewrite Hd. by apply list_elem_of_fmap_2. }
    destruct (db p0) as [d0|] eqn:Hd0; [|by apply IH].
    destruct (get_issue d0 (i_id i)) as [i0|] eqn:Hget; [|by apply IH].
    apply get_issue_Some in Hget as [Hi0 Hid]. destruct (Hdisj (i_id i)); [|done].
    unfold project_ids. rewrite Hd0, <-Hid. by apply list_elem_of_fmap_2.
Qed.

Lemma where_clause_open (i : IssueRow) : where_clause open_options i = true ↔ i_status i = "open".
Proof. unfold where_clause; simpl. by rewrite andb_true_r, bool_decide_eq_true. Qed.

(** The open tasks [getReadyTasks] starts from: the open issues of the
    readable stores. *)
Lemma elem_of_getTasks_open (projects : list Project) (t : Task) :
  t ∈ getTasks open_options projects
  ↔ ∃ p d i, p ∈ projects ∧ db p = Some d ∧ i ∈ issues d ∧ i_status i = "open"
             ∧ t = list_task p d i.
Proof.
  unfold getTasks; simpl. rewrite js_sort_Permutation, list_elem_of_bind. split.
  - intros (p & Ht & Hp). unfold project_tasks in Ht; simpl in Ht.
    destruct (db p) as [d|] eqn:Hd; [|by apply not_elem_of_nil in Ht].
    apply list_elem_of_fmap in Ht as (i & -> & Hi). unfold select_issues in Hi.
    rewrite js_sort_Permutation in Hi. apply list_elem_of_filter in Hi as [Hw Hi].
    apply where_clause_open in Hw. by exists p, d, i.
  - intros (p & d & i & Hp & Hd & Hi & Hopen & ->). exists p. split; [|done].
    unfold project_tasks; simpl. rewrite Hd. apply list_elem_of_fmap_2.
    unfold select_issues. rewrite js_sort_Permutation. apply list_elem_of_filter.
    split; [by apply where_clause_open | done].
Qed.

(** With unique identifiers, the result holds exactly the full tasks of the
    open issues whose dependencies are all closed. *)
Lemma elem_of_getReadyTasks (projects : list Project) (r : Task) :
  NoDup (all_ids projects) →
  r ∈ getReadyTasks projects
  ↔ ∃ p d i, p ∈ projects ∧ db p = Some d ∧ i ∈ issues d ∧ i_status i = "open"
             ∧ Forall closed (query_depends_on d (i_id i))
             ∧ r = full_task p d i (i_id i).
Proof.
  intros Hnd. unfold getReadyTasks. fold open_options. rewrite list_elem_of_bind. split.
  - intros (t & Hr & Ht). apply elem_of_getTasks_open in Ht as (p & d & i & Hp & Hd & Hi & Ho & ->).
    unfold ready_step in Hr. simpl in Hr.
    rewrite (getTaskById_unique projects p d i Hnd Hp Hd Hi) in Hr. simpl in Hr.
    destruct (existsb not_closed (query_depends_on d (i_id i))) eqn:Hex;
      [by apply not_elem_of_nil in Hr|].
    apply list_elem_of_singleton in Hr as ->. apply existsb_not_closed in Hex.
    by exists p, d, i.
  - intros (p & d & i & Hp & Hd & Hi & Ho & Hall & ->). exists (list_task p d i). split.
    + unfold ready_step. simpl.
      rewrite (getTaskById_unique projects p d i Hnd Hp Hd Hi). simpl.
      apply existsb_not_closed in Hall. rewrite Hall. by apply list_elem_of_singleton.
    + apply elem_of_getTasks_open. by exists p, d, i.
Qed.

(** C7: [getReadyTasks] does not return the open tasks whose dependencies
    are all closed when two stores hold the same identifier, because the
    lookup by identifier answers with the first store's task.  With
    [duplicated_stores] the one task returned as ready is closed; with
    [shadowed_stores] an open task without dependencies is left out because
    its namesake in the first store is blocked. *)
Lemma getReadyTasks_wrong_store :
  (id <$> getReadyTasks duplicated_stores = ["jat-abc"]
   ∧ status <$> getReadyTasks duplicated_stores = ["closed"])
  ∧ (status <$> getTasks open_options shadowed_stores = ["open"; "open"]
     ∧ (project <$> getTasks open_options shadowed_stores) = ["jat"; "jat-old"]
     ∧ (depends_on <$> getTasks open_options shadowed_stores)
       = [Some [ {| dep_id := "jat-xyz"; dep_type := "blocks"; dep_title := Some "jat-xyz";
                    dep_status := Some "in_progress"; dep_priority := Some 1 |} ];
          Some []]
     ∧ getReadyTasks shadowed_stores = []).
Proof. by vm_compute. Qed.

(** When task identifiers are unique across the project stores that can be
    read, the lookup by identifier finds the task itself: a task of those
    stores appears in the result of [getReadyTasks] if and only if its
    status is ['open'] and every entry of its [depends_on] list is closed;
    every task returned is such a task; in particular an open task without
    dependencies is included. *)
Theorem getReadyTasks_ready_iff (projects : list Project) :
  NoDup (all_ids projects) →
  (∀ p d i, p ∈ projects → db p = Some d → i ∈ issues d →
     ((∃ r, r ∈ getReadyTasks projects ∧ id r = i_id i)
      ↔ i_status i = "open" ∧ Forall closed (query_depends_on d (i_id i))))
  ∧ (∀ r, r ∈ getReadyTasks projects →
       status r = "open" ∧ ∃ deps, depends_on r = Some deps ∧ Forall closed deps)
  ∧ (∀ p d i, p ∈ projects → db p = Some d → i ∈ issues d →
       i_status i = "open" → query_depends_on d (i_id i) = [] →
       ∃ r, r ∈ getReadyTasks projects ∧ id r = i_id i).
Proof.
  intros Hnd. split; [|split].
  - intros p d i Hp Hd Hi. split.
    + intros (r & Hr & Hid).
      apply (elem_of_getReadyTasks projects r Hnd) in Hr
        as (p' & d' & i' & Hp' & Hd' & Hi' & Ho & Hall & ->).
      simpl in Hid.
      pose proof (getTaskById_unique projects p d i Hnd Hp Hd Hi) as H1.
      pose proof (getTaskById_unique projects p' d' i' Hnd Hp' Hd' Hi') as H2.
      rewrite Hid, H1 in H2. injection H2 as _ _ _ Hst _ _ _ _ _ _ Hdeps _ _.
      rewrite Hst. split; [done|]. by rewrite Hdeps, <-Hid.
    + intros [Ho Hall]. exists (full_task p d i (i_id i)). split; [|done].
      apply (elem_of_getReadyTasks projects _ Hnd). by exists p, d, i.
  - intros r Hr.
    apply (elem_of_getReadyTasks projects r Hnd) in Hr
      as (p & d & i & Hp & Hd & Hi & Ho & Hall & ->).
    split; [done|]. by eexists.
  - intros p d i Hp Hd Hi Ho Hdeps. exists (full_task p d i (i_id i)). split; [|done].
    apply (elem_of_getReadyTasks projects _ Hnd). exists p, d, i.
    rewrite Hdeps. by repeat split.
Qed.

Example getReadyTasks_ready_stores :
  id <$> getReadyTasks ready_stores = ["jat-bbb"; "jat-aaa"].
Proof. by vm_compute. Qed.

Lemma getReadyTasks_ready_iff_witness :
  NoDup (all_ids ready_stores)
  ∧ ∃ r, r ∈ getReadyTasks ready_stores ∧ id r = "jat-bbb".
Proof.
  assert (NoDup (all_ids ready_stores)) as Hnd
    by (apply (bool_decide_unpack _); by vm_compute).
  split; [exact Hnd|].
  destruct (getReadyTasks_ready_iff ready_stores Hnd) as [Hiff _].
  eapply (Hiff _ _ (issue_of "jat-bbb" "open" 0 90)).
  - apply list_elem_of_singleton. reflexivity.
  - reflexivity.
  - simpl. right. left.
  - split; [reflexivity|]. apply (bool_decide_unpack _). by vm_compute.
Defined.

(** * Further properties *)

(** ** The chain built by [buildDependencyChain] *)

Lemma chain_ids_app (c1 c2 : list LevelEntry) :
  chain_ids (c1 ++ c2)%list = chain_ids c1 ∪ chain_ids c2.
Proof. unfold chain_ids. rewrite fmap_app, list_to_set_app_L. done. Qed.

Lemma chain_ids_bump (sub : list LevelEntry) : chain_ids (bump <$> sub) = chain_ids sub.
Proof. unfold chain_ids. by rewrite <-list_fmap_compose. Qed.

Lemma filter_level1_bump (sub : list LevelEntry) :
  Forall (λ item, (1 ≤ level item)%nat) sub →
  filter (λ item, level item = 1%nat) (bump <$> sub) = [].
Proof.
  induction 1 as [|item sub Hitem _ IH]; [done|].
  rewrite fmap_cons, filter_cons, IH. destruct (decide _) as [Hl|]; [|done].
  simpl in Hl. lia.
Qed.

Section chain_facts.
Context (allTasks : list Task).

Lemma forEach_dep_ok (rec : Task → gset string → option ChainState) :
  (∀ bt v r, rec bt v = Some r → call_ok allTasks bt v r) →
  ∀ deps st r, forEach_dep rec allTasks deps st = Some r →
    ∃ c1, r.1 = (st.1 ++ c1)%list
          ∧ Forall (chain_entry_ok allTasks) c1
          ∧ r.2 = st.2 ∪ chain_ids c1
          ∧ entry_task <$> filter (λ item, level item = 1%nat) c1
            = omap (λ dep, find_task allTasks (dep_id dep)) deps.
Proof.
  intros Hrec deps. induction deps as [|dep deps IH]; intros st r; simpl.
  - intros [= <-]. exists []. rewrite app_nil_r. repeat split; [constructor|].
    unfold chain_ids. simpl. by rewrite (right_id_L ∅ (∪)).
  - destruct (find_task allTasks (dep_id dep)) as [bt|] eqn:Hf; [|by apply IH].
    destruct (rec bt st.2) as [[sub v1]|] eqn:Hsub; [|done].
    apply Hrec in Hsub as [Hsub_ok Hv1]. simpl in Hsub_ok, Hv1.
    apply find_task_Some in Hf as [Hin _].
    intros (c2 & Hc & Hok & Hv & Hl1)%IH. simpl in Hc, Hv.
    exists ({| level := 1; entry_task := bt |} :: ((bump <$> sub) ++ c2)%list).
    split; [by rewrite Hc, <-app_assoc|]. split; [|split].
    + constructor; [by split|]. apply Forall_app. split; [|done].
      apply Forall_fmap. eapply Forall_impl; [exact Hsub_ok|].
      intros item [Hlv Hit]. split; simpl; [lia|done].
    + rewrite Hv, Hv1. change (?x :: (?l ++ ?k)%list) with ([x] ++ l ++ k)%list.
      rewrite !chain_ids_app, chain_ids_bump. unfold chain_ids at 3. simpl.
      generalize (chain_ids sub) (chain_ids c2). intros X Y. set_unfold. intros x. tauto.
    + rewrite filter_cons. simpl. rewrite filter_app, filter_level1_bump.
      * simpl. f_equal. exact Hl1.
      * eapply Forall_impl; [exact Hsub_ok|]. by intros item [? ?].
Qed.

Lemma buildDependencyChain_ok (fuel : nat) :
  ∀ task visited r,
    buildDependencyChain fuel task allTasks visited = Some r →
    call_ok allTasks task visited r.
Proof.
  induction fuel as [|fuel IH]; intros task visited r; [done|]. simpl.
  destruct (decide (id task ∈ visited)) as [Hv|Hv].
  - intros [= <-]. split; [constructor|]. simpl. unfold chain_ids. simpl.
    set_unfold. intros x. intuition (subst; auto).
  - destruct (depends_on task) as [deps|].
    + intros (c1 & Hc & Hok & Hv1 & _)%(forEach_dep_ok _ IH). simpl in Hc, Hv1.
      split; rewrite Hc; [done|]. by rewrite Hv1.
    + intros [= <-]. split; [constructor|]. simpl. unfold chain_ids. simpl.
      set_unfold. intros x. tauto.
Qed.

Lemma buildDependencyChain_level1 (fuel : nat) (task : Task) (visited : gset string)
    (r : ChainState) :
  buildDependencyChain fuel task allTasks visited = Some r →
  id task ∉ visited →
  entry_task <$> filter (λ item, level item = 1%nat) r.1 = direct_blockers allTasks task.
Proof.
  destruct fuel as [|fuel]; [done|]. simpl. intros Hr Hv.
  rewrite decide_False in Hr by done. unfold direct_blockers.
  destruct (depends_on task) as [deps|]; simpl.
  - apply (forEach_dep_ok _ (buildDependencyChain_ok fuel)) in Hr
      as (c1 & Hc & _ & _ & Hl1). simpl in Hc. by rewrite Hc.
  - by injection Hr as <-.
Qed.
End chain_facts.

(** X1: every entry of the chain [buildDependencyChain] returns is a task
    of [allTasks] (a dependency on an unknown identifier is skipped) and has
    a level of at least 1. *)
Theorem chain_entries_from_allTasks (task : Task) (allTasks : list Task)
    (visited : gset string) :
  ∃ chain visited',
    buildDependencyChain (S (S (length allTasks))) task allTasks visited
    = Some (chain, visited')
    ∧ Forall (λ item, (1 ≤ level item)%nat ∧ entry_task item ∈ allTasks) chain.
Proof.
  destruct (buildDependencyChain_total allTasks task visited) as ([chain v'] & Hr & _).
  exists chain, v'. split; [done|]. by apply buildDependencyChain_ok in Hr as [Hok _].
Qed.

(** X2: the visited set a call leaves behind is the one it was given plus
    the task itself and the tasks of the chain it returns, so every task
    listed in the chain is marked visited. *)
Theorem chain_tasks_are_visited (task : Task) (allTasks : list Task)
    (visited : gset string) :
  ∃ chain visited',
    buildDependencyChain (S (S (length allTasks))) task allTasks visited
    = Some (chain, visited')
    ∧ visited' = {[id task]} ∪ visited ∪ chain_ids chain.
Proof.
  destruct (buildDependencyChain_total allTasks task visited) as ([chain v'] & Hr & _).
  exists chain, v'. split; [done|]. by apply buildDependencyChain_ok in Hr as [_ Hv].
Qed.

(** X3: for a task not visited before, the level-1 entries of the chain are
    exactly its direct blockers, the tasks of [allTasks] named by
    [depends_on], in the order of [depends_on]; blockers of blockers sit at
    deeper levels. *)
Theorem chain_level1_direct_blockers (task : Task) (allTasks : list Task)
    (visited : gset string) :
  ∃ chain visited',
    buildDependencyChain (S (S (length allTasks))) task allTasks visited
    = Some (chain, visited')
    ∧ (id task ∉ visited →
       entry_task <$> filter (λ item, level item = 1%nat) chain
       = direct_blockers allTasks task).
Proof.
  destruct (buildDependencyChain_total allTasks task visited) as ([chain v'] & Hr & _).
  exists chain, v'. split; [done|]. intros Hv.
  by apply (buildDependencyChain_level1 allTasks _ _ _ _ Hr).
Qed.

(** ** [formatDependencyChain] *)

Import DependencyFormat.

Lemma format_line_None (item : LevelEntry) :
  format_line item = None ↔ level item = 0%nat.
Proof.
  unfold format_line, repeat_str. destruct (Z.ltb_spec (Z.of_nat (level item) - 1) 0).
  - split; [lia|done].
  - split; [done|lia].
Qed.

Lemma format_lines_None (chain : list LevelEntry) :
  format_lines chain = None ↔ Exists (λ item, level item = 0%nat) chain.
Proof.
  induction chain as [|item chain IH]; simpl.
  - split; [done|]. by intros ?%Exists_nil.
  - rewrite Exists_cons, <-IH, <-format_line_None.
    destruct (format_line item), (format_lines chain); intuition discriminate.
Qed.

Lemma format_number_lines_as_number (chain : list LevelEntry) :
  format_number_lines (as_number <$> chain) = format_lines chain.
Proof. induction chain as [|item chain IH]; csimpl; [done|]. by rewrite IH. Qed.

Lemma formatDependencyChain_as_number (chain : list LevelEntry) :
  formatDependencyChain_number (as_number <$> chain) = formatDependencyChain chain.
Proof.
  unfold formatDependencyChain_number, formatDependencyChain.
  by rewrite length_fmap, format_number_lines_as_number.
Qed.

Lemma format_number_lines_throws (chain : list NumberEntry) :
  Exists (λ item, number_level item ≤ 0) chain → format_number_lines chain = None.
Proof.
  induction 1 as [item chain Hl|item chain _ IH]; simpl.
  - unfold format_number_line, repeat_str.
    destruct (Z.ltb_spec (number_level item - 1) 0); [done|lia].
  - rewrite IH. by destruct (format_number_line item).
Qed.

(** X4: [formatDependencyChain] gives ['No dependencies'] for the empty
    chain, and fails (a RangeError from [repeat]) on every chain that holds
    an entry whose level is an integer less than 1, be it zero or negative;
    on the chains [buildDependencyChain] builds, whose levels are counted
    from 1, the function on number levels is the one on counted levels. *)
Theorem formatDependencyChain_throws (chain : list NumberEntry) :
  formatDependencyChain_number [] = Some "No dependencies"
  ∧ (Exists (λ item, number_level item ≤ 0) chain →
     formatDependencyChain_number chain = None)
  ∧ (∀ built, formatDependencyChain_number (as_number <$> built)
              = formatDependencyChain built).
Proof.
  split; [done|]. split; [|apply formatDependencyChain_as_number].
  intros Hex. unfold formatDependencyChain_number.
  rewrite (format_number_lines_throws chain Hex).
  destruct chain; [by apply Exists_nil in Hex|done].
Qed.

Lemma formatDependencyChain_throws_witness :
  formatDependencyChain_number
    [ {| number_level := 1; number_task := task_of "jat-aaa" None None |};
      {| number_level := -1; number_task := task_of "jat-bbb" None None |} ] = None.
Proof.
  apply (proj1 (proj2 (formatDependencyChain_throws _))).
  apply Exists_cons_tl, Exists_cons_hd. simpl. lia.
Defined.

Lemma format_line_first_char (item : LevelEntry) (line : string) :
  format_line item = Some line →
  ∃ c rest, line = String c rest ∧ c ≠ "N"%char.
Proof.
  unfold format_line, repeat_str.
  destruct (Z.ltb_spec (Z.of_nat (level item) - 1) 0); [done|]. intros [= <-].
  destruct (level item) as [|[|n]] eqn:Hl; [lia| |].
  - simpl. by eexists _, _.
  - replace (Z.to_nat (Z.of_nat (S (S n)) - 1)) with (S n) by lia. simpl. by eexists _, _.
Qed.

(** X5: the chain [buildDependencyChain] returns can always be formatted,
    and the text is ['No dependencies'] exactly when the chain is empty. *)
Theorem formatDependencyChain_of_built_chain (task : Task) (allTasks : list Task)
    (visited : gset string) :
  ∃ chain visited' text,
    buildDependencyChain (S (S (length allTasks))) task allTasks visited
    = Some (chain, visited')
    ∧ formatDependencyChain chain = Some text
    ∧ (text = "No dependencies" ↔ chain = []).
Proof.
  destruct (buildDependencyChain_total allTasks task visited) as ([chain v'] & Hr & _).
  pose proof (buildDependencyChain_ok allTasks _ _ _ _ Hr) as [Hok _]. simpl in Hok.
  destruct (format_lines chain) as [lines|] eqn:Hlines.
  - exists chain, v'. unfold formatDependencyChain. rewrite Hlines.
    destruct chain as [|item chain]; simpl; [by eexists|].
    eexists. split; [done|]. split; [done|]. split; [|done]. intros Htext. exfalso.
    simpl in Hlines. destruct (format_line item) as [line|] eqn:Hline; [|done].
    destruct (format_lines chain) as [lines'|]; [|done]. injection Hlines as <-.
    apply format_line_first_char in Hline as (c & rest & -> & Hc).
    destruct lines'; simpl in Htext; injection Htext as ->; done.
  - apply format_lines_None, Exists_exists in Hlines as (item & Hin & Hl).
    rewrite Forall_forall in Hok. destruct (Hok item Hin) as [Hge _]. lia.
Qed.

(** ** [getAgentForTask] *)

(** X6: [getAgentForTask] answers null when no task of the list has the
    identifier, and never answers the empty string; an answer is the
    assignee of a task with that identifier, and when several tasks share
    it, the first one decides (null if it has no assignee). *)
Theorem getAgentForTask_first_match (taskId : string) (allTasks : list Task) :
  ((∀ t, t ∈ allTasks → id t ≠ taskId) → getAgentForTask taskId allTasks = None)
  ∧ (∀ a, getAgentForTask taskId allTasks = Some a →
       a ≠ "" ∧ ∃ t, t ∈ allTasks ∧ id t = taskId ∧ assignee t = Some a)
  ∧ (∀ l1 t l2, allTasks = (l1 ++ t :: l2)%list → id t = taskId →
       (∀ t', t' ∈ l1 → id t' ≠ taskId) →
       getAgentForTask taskId allTasks
       = if bool_decide (assignee t = Some "") then None else assignee t).
Proof.
  split; [|split].
  - intros Hnone. unfold getAgentForTask. by rewrite (proj2 (find_task_None _ _) Hnone).
  - intros a. unfold getAgentForTask.
    destruct (find_task allTasks taskId) as [t|] eqn:Hf; [|done].
    apply find_task_Some in Hf as [Hin Hid].
    destruct (assignee t) as [[|c s]|] eqn:Ha; [done| |done].
    intros [= <-]. split; [done|]. by exists t.
  - intros l1 t l2 -> <- Hl1. unfold getAgentForTask. rewrite find_task_first by done.
    destruct (assignee t) as [[|c s]|]; done.
Qed.

(** ** The hash of [getProjectColor] *)

Lemma ToInt32_range (z : Z) : - 2 ^ 31 ≤ ToInt32 z < 2 ^ 31.
Proof.
  unfold ToInt32. pose proof (Z.mod_pos_bound (z + 2 ^ 31) (2 ^ 32)). lia.
Qed.

Lemma ToInt32_congr (z : Z) : ∃ k, ToInt32 z = z + k * 2 ^ 32.
Proof.
  unfold ToInt32. exists (- ((z + 2 ^ 31) `div` 2 ^ 32)).
  pose proof (Z.div_mod (z + 2 ^ 31) (2 ^ 32)). lia.
Qed.

Lemma js_shl5_range (h : Z) : - 2 ^ 31 ≤ js_shl h 5 < 2 ^ 31.
Proof. apply ToInt32_range. Qed.

Lemma js_shl5_congr (h : Z) : ∃ k, js_shl h 5 = 32 * h + k * 2 ^ 32.
Proof.
  unfold js_shl. rewrite Z.shiftl_mul_pow2 by lia.
  destruct (ToInt32_congr (ToInt32 h * 2 ^ 5)) as [k1 ->].
  destruct (ToInt32_congr h) as [k2 ->]. exists (k1 + 32 * k2). lia.
Qed.

Lemma charCodes_range (s : string) : Forall (λ c, 0 ≤ c ≤ 255) (charCodes s).
Proof.
  unfold charCodes. apply Forall_fmap, Forall_forall. intros c _. simpl.
  pose proof (nat_ascii_bounded c). lia.
Qed.

Lemma hash_fold_bound (codes : list Z) (h : Z) :
  Forall (λ c, 0 ≤ c ≤ 65535) codes →
  Z.abs (foldl hash_step h codes) ≤ Z.abs h + (2 ^ 31 + 65535) * Z.of_nat (length codes).
Proof.
  intros Hc. revert h. induction Hc as [|c codes Hc _ IH]; intros h; simpl; [lia|].
  etrans; [apply IH|]. unfold hash_step. pose proof (js_shl5_range h). lia.
Qed.

Lemma hash_fold_congr (codes : list Z) (h h' : Z) :
  (∃ k, h = h' + k * 2 ^ 32) →
  ∃ k, foldl hash_step h codes = foldl (λ a c, c + 31 * a) h' codes + k * 2 ^ 32.
Proof.
  revert h h'. induction codes as [|c codes IH]; intros h h' [k Hk]; simpl; [by exists k|].
  apply IH. unfold hash_step. destruct (js_shl5_congr h) as [k1 ->].
  exists (k1 + 31 * k). lia.
Qed.

(** X7: the hash loop of [getProjectColor] computes, modulo 2^32, the
    polynomial hash with multiplier 31 of the prefix's character codes. *)
Theorem hash_of_polynomial (prefix : string) :
  hash_of prefix mod 2 ^ 32 = poly_hash (charCodes prefix) mod 2 ^ 32.
Proof.
  unfold hash_of, poly_hash.
  destruct (hash_fold_congr (charCodes prefix) 0 0) as [k ->]; [by exists 0|].
  by rewrite Z.mod_add.
Qed.

(** X8: whatever UTF-16 code units (0 to 65535) the prefix is made of, the
    hash loop of [getProjectColor] stays within (2^31 + 65535) times their
    number in absolute value; for up to 2^21 code units it is therefore
    below 2^53, the range in which JavaScript Number arithmetic on integers
    is exact.  The hash of a prefix is this loop over its character codes,
    all of which are such code units. *)
Theorem hash_of_bounded (codes : list Z) :
  Forall (λ c, 0 ≤ c ≤ 65535) codes →
  Z.abs (foldl hash_step 0 codes) ≤ (2 ^ 31 + 65535) * Z.of_nat (length codes)
  ∧ (Z.of_nat (length codes) ≤ 2 ^ 21 → Z.abs (foldl hash_step 0 codes) < 2 ^ 53)
  ∧ (∀ prefix, hash_of prefix = foldl hash_step 0 (charCodes prefix)
               ∧ Forall (λ c, 0 ≤ c ≤ 65535) (charCodes prefix)).
Proof.
  intros Hc. pose proof (hash_fold_bound codes 0 Hc) as Hb.
  split; [lia|]. split; [lia|]. intros prefix. split; [done|].
  eapply Forall_impl; [apply charCodes_range|]. simpl. lia.
Qed.

Lemma hash_of_bounded_witness :
  Forall (λ c, 0 ≤ c ≤ 65535) [26085; 26412; 106]
  ∧ Z.abs (foldl hash_step 0 [26085; 26412; 106]) ≤ (2 ^ 31 + 65535) * 3.
Proof.
  assert (Forall (λ c, 0 ≤ c ≤ 65535) [26085; 26412; 106]) as Hc
    by (repeat constructor; lia).
  split; [exact Hc|]. exact (proj1 (hash_of_bounded [26085; 26412; 106] Hc)).
Defined.

(** ** [getProjectColorMap] *)

Import ProjectColorMap.

Lemma getProjectColorMap_snoc (tasks : list Task) (t : Task) :
  getProjectColorMap (tasks ++ [t]) = color_map_step (getProjectColorMap tasks) t.
Proof. unfold getProjectColorMap. by rewrite foldl_app. Qed.

Lemma map_get_elem (m : ColorMap) (k v : option string) :
  NoDup m.*1 → (k, v) ∈ m → map_get m k = Some v.
Proof.
  unfold map_get. induction m as [|[k0 v0] m IH]; intros Hnd Hin;
    [by apply not_elem_of_nil in Hin|].
  rewrite fmap_cons, NoDup_cons in Hnd. destruct Hnd as [Hk0 Hnd]. simpl in Hk0.
  simpl. destruct (decide (k0 = k)) as [->|Hne].
  - apply elem_of_cons in Hin as [[= <-]|Hin]; [done|].
    destruct Hk0. by apply (list_elem_of_fmap_2 fst) in Hin.
  - apply elem_of_cons in Hin as [[= <- <-]|Hin]; [done|].
    specialize (IH Hnd Hin). destruct (list_find _ m) as [[j kv]|]; simplify_eq/=; done.
Qed.

Lemma elem_of_snoc {A} (l : list A) (t x : A) : x ∈ (l ++ [t])%list ↔ x ∈ l ∨ x = t.
Proof. by rewrite elem_of_app, list_elem_of_singleton. Qed.

(** The entries of the map: distinct keys, each the prefix of a task seen,
    with the colour of a task of that prefix. *)
Lemma getProjectColorMap_inv (tasks : list Task) :
  NoDup (getProjectColorMap tasks).*1
  ∧ (∀ k, k ∈ (getProjectColorMap tasks).*1 ↔ ∃ t, t ∈ tasks ∧ k = projectPrefix (id t))
  ∧ (∀ k v, (k, v) ∈ getProjectColorMap tasks →
       ∃ t, t ∈ tasks ∧ k = projectPrefix (id t) ∧ v = getProjectColor (id t)).
Proof.
  induction tasks as [|t tasks (Hnd & Hkeys & Hvals)] using rev_ind.
  - split; [constructor|]. split.
    + intros k. split; [by intros ?%not_elem_of_nil|]. by intros (t & ?%not_elem_of_nil & _).
    + intros k v ?%not_elem_of_nil. done.
  - rewrite getProjectColorMap_snoc. unfold color_map_step, map_has.
    case_bool_decide as Hhas.
    + split; [done|]. split.
      * intros k. rewrite Hkeys. split.
        -- intros (t' & Hin & ->). exists t'. rewrite elem_of_snoc. auto.
        -- intros (t' & Hin & ->). apply elem_of_snoc in Hin as [Hin| ->]; [by exists t'|].
           by apply Hkeys.
      * intros k v (t' & Hin & ? & ?)%Hvals. exists t'. rewrite elem_of_snoc. auto.
    + split; [|split].
      * rewrite fmap_app. apply NoDup_app. split; [done|]. split; [|by apply NoDup_singleton].
        intros k Hk Hk'. apply list_elem_of_singleton in Hk'. by subst k.
      * intros k. rewrite fmap_app. simpl. rewrite elem_of_snoc, Hkeys. split.
        -- intros [(t' & Hin & ->)| ->].
           ++ exists t'. rewrite elem_of_snoc. auto.
           ++ exists t. rewrite elem_of_snoc. auto.
        -- intros (t' & Hin & ->). apply elem_of_snoc in Hin as [Hin| ->];
             [left; by exists t'|by right].
      * intros k v [Hin|Heq]%elem_of_snoc.
        -- apply Hvals in Hin as (t' & Hin & ? & ?). exists t'. rewrite elem_of_snoc. auto.
        -- injection Heq as -> ->. exists t. rewrite elem_of_snoc. auto.
Qed.

(** X9: the colour map has one entry per project prefix of the task list;
    when no identifier is empty, looking up the prefix of any task of the
    list gives the very colour [getProjectColor] gives that task. *)
Theorem getProjectColorMap_agrees (tasks : list Task) :
  NoDup (getProjectColorMap tasks).*1
  ∧ (∀ k, k ∈ (getProjectColorMap tasks).*1 ↔ ∃ t, t ∈ tasks ∧ k = projectPrefix (id t))
  ∧ (Forall (λ t, id t ≠ "") tasks →
     ∀ t, t ∈ tasks →
       map_get (getProjectColorMap tasks) (projectPrefix (id t))
       = Some (getProjectColor (id t))).
Proof.
  destruct (getProjectColorMap_inv tasks) as (Hnd & Hkeys & Hvals).
  split; [done|]. split; [done|]. intros Hne t Hin.
  assert (projectPrefix (id t) ∈ (getProjectColorMap tasks).*1) as Hk
    by (apply Hkeys; by exists t).
  apply list_elem_of_fmap in Hk as ([k v] & Hk & Hkv). simpl in Hk. subst k.
  rewrite (map_get_elem _ _ v Hnd Hkv). f_equal.
  apply Hvals in Hkv as (t' & Hin' & Hp & ->).
  rewrite Forall_forall in Hne.
  rewrite !getProjectColor_nonempty by auto.
  rewrite !projectPrefix_before_first_dash in Hp. by injection Hp as ->.
Qed.

(** ** Labels: [GROUP_CONCAT] and [split] *)

Lemma split_no_sep (sep : ascii) (s : string) :
  sep ∉ String.list_ascii_of_string s → split sep s = [s].
Proof.
  induction s as [|c s IH]; simpl; [done|]. intros Hsep.
  apply not_elem_of_cons in Hsep as [Hc Hs].
  destruct (Ascii.eqb_spec c sep); [congruence|]. by rewrite IH.
Qed.

Lemma split_app_sep (sep : ascii) (s t : string) :
  sep ∉ String.list_ascii_of_string s →
  split sep (s +:+ String sep t) = s :: split sep t.
Proof.
  induction s as [|c s IH]; simpl.
  - intros _. by rewrite Ascii.eqb_refl.
  - intros Hsep. apply not_elem_of_cons in Hsep as [Hc Hs].
    destruct (Ascii.eqb_spec c sep); [congruence|]. by rewrite IH.
Qed.

Lemma split_concat (sep : ascii) (ls : list string) :
  ls ≠ [] → Forall (λ s, sep ∉ String.list_ascii_of_string s) ls →
  split sep (String.concat (String sep "") ls) = ls.
Proof.
  intros Hne Hall. induction Hall as [|x ls Hx Hall IH]; [done|].
  destruct ls as [|y ls]; [by apply split_no_sep|].
  change (String.concat (String sep "") (x :: y :: ls))
    with (x +:+ String sep (String.concat (String sep "") (y :: ls))).
  rewrite split_app_sep by done. f_equal. by apply IH.
Qed.

Lemma filter_all {A} (P : A → Prop) `{!∀ x, Decision (P x)} (l : list A) :
  Forall P l → filter P l = l.
Proof.
  induction 1 as [|x l Hx _ IH]; [done|]. by rewrite filter_cons_True, IH.
Qed.

Lemma concat_nonempty (sep x : string) (ls : list string) :
  x ≠ "" → String.concat sep (x :: ls) ≠ "".
Proof. destruct x; [done|]. by destruct ls. Qed.

(** X10: the labels of a task never hold an empty string; and when every
    label of the issue is non-empty and free of commas, joining them with
    [GROUP_CONCAT] and splitting them again gives back the labels of the
    issue's rows, each as often as the table holds it: none is lost, split
    or added.  Their order is the one in which SQLite visits the rows, which
    the query does not fix and the statement does not depend on. *)
Theorem labels_round_trip (p : Project) (d : Db) (i : IssueRow) :
  Forall (λ s, s ≠ "") (labels (list_task p d i))
  ∧ (Forall plain_label (l_label <$> filter (λ r, l_issue_id r = i_id i) (labels_table d)) →
     labels (list_task p d i)
     ≡ₚ l_label <$> filter (λ r, l_issue_id r = i_id i) (labels_table d)).
Proof.
  simpl. unfold parse_labels, group_concat_labels.
  set (ls := l_label <$> filter (λ r, l_issue_id r = i_id i) (labels_table d)).
  split.
  - destruct (truthy _); [|constructor]. apply Forall_forall.
    by intros s [Hs _]%list_elem_of_filter.
  - intros Hplain. destruct ls as [|x rest]; [done|].
    assert (x ≠ "") as Hx by (by inversion Hplain as [|?? [? _]]).
    unfold truthy. rewrite bool_decide_eq_false_2 by (by apply concat_nonempty).
    change (filter (λ s : string, s ≠ "") (split ","%char (String.concat "," (x :: rest)))
            ≡ₚ x :: rest).
    rewrite (split_concat ","%char (x :: rest)); [|done|].
    + rewrite filter_all; [done|]. eapply Forall_impl; [exact Hplain|]. by intros s [? _].
    + eapply Forall_impl; [exact Hplain|]. by intros s [_ ?].
Qed.

(** ** The filters of [getTasks] *)

(** The project filter: none for an [undefined] or empty [projectName]. *)
Lemma elem_of_project_tasks (o : Options) (p : Project) (t : Task) :
  t ∈ project_tasks o p
  ↔ ∃ d i, db p = Some d ∧ i ∈ issues d ∧ where_clause o i = true
           ∧ (truthy (opt_projectName o) = true → Some (name p) = opt_projectName o)
           ∧ t = list_task p d i.
Proof.
  unfold project_tasks. destruct (truthy (opt_projectName o)) eqn:Htr; simpl.
  - case_bool_decide as Hname; simpl.
    + destruct (db p) as [d|] eqn:Hd.
      * rewrite list_elem_of_fmap. unfold select_issues.
        setoid_rewrite js_sort_Permutation. setoid_rewrite list_elem_of_filter. split.
        -- intros (i & -> & Hw & Hi). by exists d, i.
        -- intros (d' & i & [= <-] & Hi & Hw & _ & ->). by exists i.
      * split; [by intros ?%not_elem_of_nil|]. by intros (d & i & ? & _).
    + split; [by intros ?%not_elem_of_nil|]. intros (d & i & _ & _ & _ & Hn & _). by destruct Hname, Hn.
  - destruct (db p) as [d|] eqn:Hd.
    + rewrite list_elem_of_fmap. unfold select_issues.
      setoid_rewrite js_sort_Permutation. setoid_rewrite list_elem_of_filter. split.
      * intros (i & -> & Hw & Hi). by exists d, i.
      * intros (d' & i & [= <-] & Hi & Hw & _ & ->). by exists i.
    + split; [by intros ?%not_elem_of_nil|]. by intros (d & i & ? & _).
Qed.

Lemma elem_of_getTasks (o : Options) (projects : list Project) (t : Task) :
  t ∈ getTasks o projects
  ↔ ∃ p d i, p ∈ projects ∧ db p = Some d ∧ i ∈ issues d ∧ where_clause o i = true
             ∧ (truthy (opt_projectName o) = true → Some (name p) = opt_projectName o)
             ∧ t = list_task p d i.
Proof.
  unfold getTasks. destruct (truthy (opt_projectName o)) eqn:Htr; simpl.
  - case_bool_decide as Hnone.
    + split; [by intros ?%not_elem_of_nil|].
      intros (p & d & i & Hp & _ & _ & _ & Hn & _).
      assert (p ∈ filter (λ q, Some (name q) = opt_projectName o) projects) as Hin
        by (apply list_elem_of_filter; auto).
      rewrite Hnone in Hin. by apply not_elem_of_nil in Hin.
    + rewrite js_sort_Permutation, list_elem_of_bind.
      setoid_rewrite elem_of_project_tasks. rewrite Htr. split.
      * intros (p & (d & i & H) & Hp). by exists p, d, i.
      * intros (p & d & i & Hp & H). exists p. split; [by exists d, i|done].
  - rewrite js_sort_Permutation, list_elem_of_bind.
    setoid_rewrite elem_of_project_tasks. rewrite Htr. split.
    + intros (p & (d & i & H) & Hp). by exists p, d, i.
    + intros (p & d & i & Hp & H). exists p. split; [by exists d, i|done].
Qed.

(** X11: every task [getTasks] returns satisfies the filters given (status,
    priority, and project name when it is a non-empty string) and carries
    both dependency lists; and an issue of a store that can be read is
    returned exactly when it satisfies them. *)
Theorem getTasks_filters (o : Options) (projects : list Project) :
  (∀ t, t ∈ getTasks o projects →
     (∀ s, opt_status o = Some s → status t = s)
     ∧ (∀ q, opt_priority o = Some q → priority t = q)
     ∧ (truthy (opt_projectName o) = true → Some (project t) = opt_projectName o)
     ∧ is_Some (depends_on t) ∧ is_Some (blocked_by t))
  ∧ (∀ p d i, p ∈ projects → db p = Some d → i ∈ issues d →
       (list_task p d i ∈ getTasks o projects
        ↔ (∀ s, opt_status o = Some s → i_status i = s)
          ∧ (∀ q, opt_priority o = Some q → i_priority i = q)
          ∧ (truthy (opt_projectName o) = true → Some (name p) = opt_projectName o))).
Proof.
  assert (∀ i, where_clause o i = true
               ↔ (∀ s, opt_status o = Some s → i_status i = s)
                 ∧ (∀ q, opt_priority o = Some q → i_priority i = q)) as Hwhere.
  { intros i. unfold where_clause. rewrite andb_true_iff.
    destruct (opt_status o), (opt_priority o); rewrite ?bool_decide_eq_true;
      (split;
       [ intros [H1 H2]; split; intros ? ?; simplify_eq; done
       | intros [H1 H2]; split; first [done | by apply H1 | by apply H2] ]). }
  split.
  - intros t (p & d & i & Hp & Hd & Hi & Hw & Hn & ->)%elem_of_getTasks.
    apply Hwhere in Hw as [Hs Hq]. simpl. repeat split; eauto.
  - intros p d i Hp Hd Hi. rewrite elem_of_getTasks. split.
    + intros (p' & d' & i' & Hp' & Hd' & Hi' & Hw & Hn & Heq).
      apply Hwhere in Hw as [Hs Hq].
      injection Heq as _ _ _ Hst Hpr _ _ Hname _ _ _ _.
      rewrite Hst, Hpr, Hname. auto.
    + intros (Hs & Hq & Hn). exists p, d, i.
      split; [done|]. split; [done|]. split; [done|]. split; [by apply Hwhere|]. done.
Qed.

(** ** Dependency entries built from the [dependencies] table *)

Lemma left_join_issue_id (d : Db) (ref_id type : string) (dep : DepRef) :
  dep ∈ left_join_issue d ref_id type → dep_id dep = ref_id ∧ dep_type dep = type.
Proof.
  unfold left_join_issue. destruct (filter _ (issues d)) as [|j rows].
  - by intros ->%list_elem_of_singleton.
  - by intros (j' & -> & _)%list_elem_of_fmap.
Qed.

Lemma left_join_issue_nonempty (d : Db) (ref_id type : string) :
  ∃ dep, dep ∈ left_join_issue d ref_id type.
Proof.
  unfold left_join_issue. destruct (filter _ (issues d)) as [|j rows].
  - eexists. by apply list_elem_of_singleton.
  - eexists. simpl. left.
Qed.

Lemma left_join_issue_dangling (d : Db) (ref_id type : string) :
  dangling d ref_id →
  left_join_issue d ref_id type
  = [ {| dep_id := ref_id; dep_type := type; dep_title := None;
         dep_status := None; dep_priority := None |} ].
Proof.
  intros Hd. unfold left_join_issue.
  destruct (filter _ (issues d)) as [|j rows] eqn:Hf; [done|].
  assert (j ∈ filter (λ i, i_id i = ref_id) (issues d)) as Hj by (rewrite Hf; left).
  apply list_elem_of_filter in Hj as [Hid Hj]. by destruct (Hd j Hj).
Qed.

Lemma filter_unique {A B} `{!EqDecision B} (f : A → B) (l : list A) (x : A) :
  NoDup (f <$> l) → x ∈ l → filter (λ y, f y = f x) l = [x].
Proof.
  induction l as [|y l IH]; intros Hnd Hx; [by apply not_elem_of_nil in Hx|].
  rewrite fmap_cons, NoDup_cons in Hnd. destruct Hnd as [Hy Hnd].
  rewrite filter_cons. destruct (decide (f y = f x)) as [Hyx|Hyx].
  - apply elem_of_cons in Hx as [->|Hx].
    + f_equal. destruct (filter (λ y0, f y0 = f y) l) as [|z zs] eqn:Hf; [done|].
      assert (z ∈ filter (λ y0, f y0 = f y) l) as Hz by (rewrite Hf; left).
      apply list_elem_of_filter in Hz as [Hzy Hz]. destruct Hy. rewrite <-Hzy.
      by apply list_elem_of_fmap_2.
    + destruct Hy. rewrite Hyx. by apply list_elem_of_fmap_2.
  - apply elem_of_cons in Hx as [->|Hx]; [done|]. by apply IH.
Qed.

Lemma left_join_issue_found (d : Db) (j : IssueRow) (type : string) :
  NoDup (i_id <$> issues d) → j ∈ issues d →
  left_join_issue d (i_id j) type
  = [ {| dep_id := i_id j; dep_type := type; dep_title := Some (i_title j);
         dep_status := Some (i_status j); dep_priority := Some (i_priority j) |} ].
Proof.
  intros Hnd Hj. unfold left_join_issue. by rewrite (filter_unique i_id _ j Hnd Hj).
Qed.

Lemma elem_of_query_depends_on (d : Db) (a : string) (dep : DepRef) :
  dep ∈ query_depends_on d a
  ↔ ∃ r, r ∈ dependencies d ∧ d_issue_id r = a
         ∧ dep ∈ left_join_issue d (d_depends_on_id r) (d_type r).
Proof.
  unfold query_depends_on. rewrite list_elem_of_bind. setoid_rewrite list_elem_of_filter.
  split; intros (r & H); exists r; tauto.
Qed.

Lemma elem_of_query_dependents (d : Db) (b : string) (dep : DepRef) :
  dep ∈ query_dependents d b
  ↔ ∃ r, r ∈ dependencies d ∧ d_depends_on_id r = b
         ∧ dep ∈ left_join_issue d (d_issue_id r) (d_type r).
Proof.
  unfold query_dependents. rewrite list_elem_of_bind. setoid_rewrite list_elem_of_filter.
  split; intros (r & H); exists r; tauto.
Qed.

(** X12: within one store the two edge lists of [getTasks] mirror each
    other: an issue lists another in [depends_on] exactly when the other
    lists it in [blocked_by]. *)
Theorem depends_on_mirrors_blocked_by (p : Project) (d : Db) (i j : IssueRow) :
  (∃ dep, dep ∈ or_empty (depends_on (list_task p d i)) ∧ dep_id dep = i_id j)
  ↔ (∃ dep, dep ∈ or_empty (blocked_by (list_task p d j)) ∧ dep_id dep = i_id i).
Proof.
  simpl. setoid_rewrite elem_of_query_depends_on. setoid_rewrite elem_of_query_dependents.
  split.
  - intros (dep & (r & Hr & Hi & Hdep) & Hj).
    apply left_join_issue_id in Hdep as [Hid _]. rewrite Hid in Hj.
    destruct (left_join_issue_nonempty d (d_issue_id r) (d_type r)) as [dep' Hdep'].
    exists dep'. split; [by exists r|].
    apply left_join_issue_id in Hdep' as [-> _]. done.
  - intros (dep & (r & Hr & Hj & Hdep) & Hi).
    apply left_join_issue_id in Hdep as [Hid _]. rewrite Hid in Hi.
    destruct (left_join_issue_nonempty d (d_depends_on_id r) (d_type r)) as [dep' Hdep'].
    exists dep'. split; [by exists r|].
    apply left_join_issue_id in Hdep' as [-> _]. done.
Qed.

(** X13: with identifiers unique within a database, each [depends_on]
    entry carries the title, status and priority that the issue it names
    has in the database at the time of the query. *)
Theorem depends_on_snapshot (d : Db) (a : string) (dep : DepRef) (j : IssueRow) :
  NoDup (i_id <$> issues d) →
  dep ∈ query_depends_on d a → j ∈ issues d → i_id j = dep_id dep →
  dep_title dep = Some (i_title j)
  ∧ dep_status dep = Some (i_status j)
  ∧ dep_priority dep = Some (i_priority j).
Proof.
  intros Hnd (r & Hr & Ha & Hdep)%elem_of_query_depends_on Hj Hid.
  pose proof (left_join_issue_id _ _ _ _ Hdep) as [Hid' _].
  rewrite <-Hid', <-Hid in Hdep. rewrite (left_join_issue_found d j _ Hnd Hj) in Hdep.
  by apply list_elem_of_singleton in Hdep as ->.
Qed.

Lemma depends_on_snapshot_witness :
  dep_title closed_entry = Some "jat-ccc"
  ∧ dep_status closed_entry = Some "closed"
  ∧ dep_priority closed_entry = Some 2.
Proof.
  apply (depends_on_snapshot ready_db "jat-bbb" closed_entry (issue_of "jat-ccc" "closed" 2 80)).
  - apply (bool_decide_unpack _). by vm_compute.
  - vm_compute. left.
  - vm_compute. right. right. left.
  - reflexivity.
Defined.

(** ** Readiness across the two layers *)

Lemma getReadyTasks_id_iff (projects : list Project) (p : Project) (d : Db) (i : IssueRow) :
  NoDup (all_ids projects) → p ∈ projects → db p = Some d → i ∈ issues d →
  (∃ r, r ∈ getReadyTasks projects ∧ id r = i_id i)
  ↔ i_status i = "open" ∧ Forall closed (query_depends_on d (i_id i)).
Proof.
  intros Hnd Hp Hd Hi. split.
  - intros (r & Hr & Hid).
    apply (elem_of_getReadyTasks projects r Hnd) in Hr
      as (p' & d' & i' & Hp' & Hd' & Hi' & Ho & Hall & ->).
    simpl in Hid.
    pose proof (getTaskById_unique projects p d i Hnd Hp Hd Hi) as H1.
    pose proof (getTaskById_unique projects p' d' i' Hnd Hp' Hd' Hi') as H2.
    rewrite Hid, H1 in H2. injection H2 as _ _ _ Hst _ _ _ _ _ _ Hdeps _ _.
    rewrite Hst. split; [done|]. by rewrite Hdeps, <-Hid.
  - intros [Ho Hall]. exists (full_task p d i (i_id i)). split; [|done].
    apply (elem_of_getReadyTasks projects _ Hnd). by exists p, d, i.
Qed.

(** X14: a dependency on an identifier that no issue of the database has
    yields an entry with a null status, which counts as an unresolved
    blocker: the task cannot be assigned, and (identifiers being unique) it
    is never among the ready tasks. *)
Theorem dangling_dependency_blocks (projects : list Project) (p : Project) (d : Db)
    (i : IssueRow) (r : DependencyRow) :
  p ∈ projects → db p = Some d → i ∈ issues d →
  r ∈ dependencies d → d_issue_id r = i_id i → dangling d (d_depends_on_id r) →
  canBeAssigned (analyzeDependencies (list_task p d i)) = false
  ∧ (NoDup (all_ids projects) → ∀ t, t ∈ getReadyTasks projects → id t ≠ i_id i).
Proof.
  intros Hp Hd Hi Hr Hri Hdang.
  assert (¬ Forall closed (query_depends_on d (i_id i))) as Hnot.
  { rewrite Forall_forall. intros Hall.
    specialize (Hall {| dep_id := d_depends_on_id r; dep_type := d_type r; dep_title := None;
                        dep_status := None; dep_priority := None |}).
    assert (closed {| dep_id := d_depends_on_id r; dep_type := d_type r; dep_title := None;
                      dep_status := None; dep_priority := None |}) as Hc; [|done].
    apply Hall. apply elem_of_query_depends_on. exists r. split; [done|]. split; [done|].
    rewrite left_join_issue_dangling by done. left. }
  split.
  - rewrite canBeAssigned_negb, negb_false_iff. apply not_false_iff_true.
    by rewrite hasBlockers_false.
  - intros Hnd t Ht Hid. destruct Hnot.
    apply (getReadyTasks_id_iff projects p d i Hnd Hp Hd Hi). by exists t.
Qed.

Lemma dangling_dependency_blocks_witness :
  canBeAssigned
    (analyzeDependencies
       (list_task (project_of "jat" [issue_of "jat-aaa" "open" 1 100]
                     [ {| d_issue_id := "jat-aaa"; d_depends_on_id := "jat-gone";
                          d_type := "blocks" |} ])
          {| issues := [issue_of "jat-aaa" "open" 1 100];
             dependencies := [ {| d_issue_id := "jat-aaa"; d_depends_on_id := "jat-gone";
                                  d_type := "blocks" |} ];
             labels_table := []; comments_table := [] |}
          (issue_of "jat-aaa" "open" 1 100))) = false.
Proof.
  refine (proj1 (dangling_dependency_blocks dangling_store _ _ _
                   {| d_issue_id := "jat-aaa"; d_depends_on_id := "jat-gone"; d_type := "blocks" |}
                   _ _ _ _ _ _)).
  - left.
  - reflexivity.
  - left.
  - left.
  - reflexivity.
  - intros j Hj. apply list_elem_of_singleton in Hj as ->. done.
Defined.

(** X15: for an open task of uniquely identified stores, the dashboard's
    check and the server's agree: [analyzeDependencies] on the task as
    [getTasks] returns it says it can be assigned exactly when
    [getReadyTasks] lists it. *)
Theorem readiness_checks_agree (projects : list Project) (p : Project) (d : Db)
    (i : IssueRow) :
  NoDup (all_ids projects) → p ∈ projects → db p = Some d → i ∈ issues d →
  i_status i = "open" →
  (canBeAssigned (analyzeDependencies (list_task p d i)) = true
   ↔ ∃ r, r ∈ getReadyTasks projects ∧ id r = i_id i).
Proof.
  intros Hnd Hp Hd Hi Ho.
  rewrite (getReadyTasks_id_iff projects p d i Hnd Hp Hd Hi).
  rewrite canBeAssigned_negb, negb_true_iff, hasBlockers_false. simpl. tauto.
Qed.

Lemma readiness_checks_agree_witness :
  canBeAssigned
    (analyzeDependencies
       (list_task (project_of "jat" (issues ready_db) (dependencies ready_db)) ready_db
          (issue_of "jat-bbb" "open" 0 90))) = true
  ↔ ∃ r, r ∈ getReadyTasks ready_stores ∧ id r = "jat-bbb".
Proof.
  apply (readiness_checks_agree ready_stores _ ready_db (issue_of "jat-bbb" "open" 0 90)).
  - apply (bool_decide_unpack _). by vm_compute.
  - left.
  - reflexivity.
  - right. left.
  - reflexivity.
Defined.

(** ** Order and content of what the lookups return *)

Lemma sublist_bind_step {A B} (f : A → list A) (g : A → B) (l : list A) :
  (∀ x, g <$> f x `sublist_of` [g x]) → g <$> (l ≫= f) `sublist_of` g <$> l.
Proof.
  intros Hf. induction l as [|x l IH]; [done|].
  rewrite bind_cons, fmap_app, fmap_cons. by apply (sublist_app _ [g x]).
Qed.

Lemma ready_step_id (projects : list Project) (t : Task) :
  id <$> ready_step projects t `sublist_of` [id t].
Proof.
  unfold ready_step. destruct (getTaskById (id t) projects) as [full|] eqn:Hget; [|done].
  apply getTaskById_Some in Hget as (p & d & i & _ & _ & _ & Hid & ->). simpl.
  destruct (existsb not_closed _); simpl; [apply sublist_nil_l|by rewrite Hid].
Qed.

(** X16: [getReadyTasks] returns at most the open tasks, in the order of
    [getTasks]: the identifiers it returns are a sub-list of the identifiers
    of the open tasks. *)
Theorem getReadyTasks_among_open (projects : list Project) :
  id <$> getReadyTasks projects `sublist_of` id <$> getTasks open_options projects
  ∧ (length (getReadyTasks projects) ≤ length (getTasks open_options projects))%nat.
Proof.
  assert (id <$> getReadyTasks projects `sublist_of` id <$> getTasks open_options projects) as Hs
    by apply sublist_bind_step, ready_step_id.
  split; [done|]. apply sublist_length in Hs. by rewrite !length_fmap in Hs.
Qed.

Lemma js_sort_compare_tasks (l : list Task) : StronglySorted task_order (js_sort compare_tasks l).
Proof.
  apply (StronglySorted_impl (before compare_tasks)).
  - intros a b. apply compare_tasks_order.
  - apply js_sort_sorted.
    + intros a b. unfold before. rewrite !compare_tasks_order. unfold task_order. lia.
    + intros a b c. unfold before. rewrite !compare_tasks_order. unfold task_order. lia.
Qed.

Lemma StronglySorted_bind_step {A} (R : relation A) (f : A → list A) (l : list A) :
  StronglySorted R l →
  (∀ x, x ∈ l → f x = [] ∨ ∃ y, f x = [y] ∧ (∀ z, R x z → R y z) ∧ (∀ z, R z x → R z y)) →
  StronglySorted R (l ≫= f).
Proof.
  induction 1 as [|x l Hl IH Hx]; intros Hf; [constructor|].
  rewrite bind_cons.
  assert (StronglySorted R (l ≫= f)) as Hrest by (apply IH; intros; apply Hf; by right).
  destruct (Hf x) as [->|(y & -> & Hy1 & _)]; [left|done|]. simpl.
  constructor; [done|]. apply Forall_forall. intros y' (x' & Hy' & Hx')%list_elem_of_bind.
  rewrite Forall_forall in Hx.
  destruct (Hf x') as [Hnil|(y'' & Heq & _ & Hy2)]; [by right|..].
  - rewrite Hnil in Hy'. by apply not_elem_of_nil in Hy'.
  - rewrite Heq in Hy'. apply list_elem_of_singleton in Hy' as ->.
    apply Hy2, Hy1, Hx, Hx'.
Qed.

(** X17: with identifiers unique across the stores, the ready tasks come
    back sorted like the task list: priority ascending, then creation time
    descending. *)
Theorem getReadyTasks_sorted (projects : list Project) :
  NoDup (all_ids projects) → StronglySorted task_order (getReadyTasks projects).
Proof.
  intros Hnd. unfold getReadyTasks. fold open_options. apply StronglySorted_bind_step.
  - unfold getTasks. simpl. apply js_sort_compare_tasks.
  - intros t (p & d & i & Hp & Hd & Hi & Ho & ->)%elem_of_getTasks_open.
    unfold ready_step. simpl. rewrite (getTaskById_unique projects p d i Hnd Hp Hd Hi). simpl.
    destruct (existsb not_closed _); [by left|]. right. eexists. split; [done|].
    split; intros z; unfold task_order; simpl; done.
Qed.

Lemma getReadyTasks_sorted_witness : StronglySorted task_order (getReadyTasks ready_stores).
Proof.
  apply getReadyTasks_sorted. apply (bool_decide_unpack _). by vm_compute.
Defined.

(** X18: [getTaskById] scans the stores in the order of [getProjects] and
    answers from the first readable one that holds the identifier, whatever
    later stores hold. *)
Theorem getTaskById_first_store (l1 l2 : list Project) (p : Project) (d : Db)
    (i : IssueRow) (taskId : string) :
  db p = Some d → i ∈ issues d → i_id i = taskId →
  (∀ q dq j, q ∈ l1 → db q = Some dq → j ∈ issues dq → i_id j ≠ taskId) →
  ∃ t, getTaskById taskId (l1 ++ p :: l2) = Some t
       ∧ project t = name p ∧ project_path t = path p ∧ id t = taskId.
Proof.
  intros Hd Hi Hid. induction l1 as [|q l1 IH]; intros Hl1; simpl.
  - rewrite Hd. destruct (get_issue d taskId) as [i'|] eqn:Hget.
    + apply get_issue_Some in Hget as [_ Hid']. by eexists.
    + rewrite get_issue_None in Hget. by destruct (Hget i Hi).
  - assert (∃ t, getTaskById taskId (l1 ++ p :: l2) = Some t
                 ∧ project t = name p ∧ project_path t = path p ∧ id t = taskId) as Hrest.
    { apply IH. intros q' dq j Hq'. apply Hl1. by right. }
    destruct (db q) as [dq|] eqn:Hdq; [|done].
    destruct (get_issue dq taskId) as [j|] eqn:Hget; [|done].
    apply get_issue_Some in Hget as [Hj Hjid]. destruct (Hl1 q dq j); [left|done..].
Qed.

Lemma getTaskById_first_store_witness :
  ∃ t, getTaskById "jat-abc" duplicated_stores = Some t
       ∧ project t = "jat" ∧ project_path t = "/home/dev/code/jat" ∧ id t = "jat-abc".
Proof.
  refine (getTaskById_first_store [] _ (project_of "jat" [issue_of "jat-abc" "closed" 1 100] [])
            _ (issue_of "jat-abc" "closed" 1 100) "jat-abc" eq_refl _ eq_refl _).
  - left.
  - intros q dq j Hq. by apply not_elem_of_nil in Hq.
Defined.

(** X19: with identifiers unique across the stores, a task of the list of
    [getTasks] and the detail [getTaskById] returns for its identifier show
    the same issue and the same [depends_on]; the reverse edges are the
    same list too, but under another name: [blocked_by] in the list and
    [dependents] in the detail, whose [blocked_by] is undefined. *)
Theorem getTaskById_matches_getTasks (o : Options) (projects : list Project) (t : Task) :
  NoDup (all_ids projects) → t ∈ getTasks o projects →
  ∃ t', getTaskById (id t) projects = Some t'
        ∧ (id t', title t', description t', status t', priority t', created_at t',
           assignee t', project t', project_path t', labels t')
          = (id t, title t, description t, status t, priority t, created_at t,
             assignee t, project t, project_path t, labels t)
        ∧ depends_on t' = depends_on t
        ∧ dependents t' = blocked_by t
        ∧ blocked_by t' = None
        ∧ dependents t = None.
Proof.
  intros Hnd (p & d & i & Hp & Hd & Hi & _ & _ & ->)%elem_of_getTasks. simpl.
  rewrite (getTaskById_unique projects p d i Hnd Hp Hd Hi). by eexists.
Qed.

Lemma getTaskById_matches_getTasks_witness :
  ∃ t', getTaskById "jat-bbb" ready_stores = Some t'
        ∧ depends_on t' = Some [closed_entry]
        ∧ dependents t' = Some []
        ∧ blocked_by t' = None.
Proof.
  destruct (getTaskById_matches_getTasks no_options ready_stores
              (list_task (project_of "jat" (issues ready_db) (dependencies ready_db)) ready_db
                 (issue_of "jat-bbb" "open" 0 90)))
    as (t' & Hget & _ & Hdeps & Hdependents & Hbb & _).
  - apply (bool_decide_unpack _). by vm_compute.
  - apply elem_of_getTasks. eexists _, ready_db, _. split; [left|].
    split; [reflexivity|]. split; [right; left|]. split; [reflexivity|]. split; [done|reflexivity].
  - exists t'. split; [exact Hget|]. split; [exact Hdeps|]. split; [exact Hdependents|exact Hbb].
Defined.

(** *** The order of stored text *)

Lemma ascii_compare_N (a b : ascii) :
  Ascii.compare a b = N.compare (N_of_ascii a) (N_of_ascii b).
Proof. reflexivity. Qed.

Lemma string_compare_trans (a b c : string) :
  String.compare a b ≠ Gt → String.compare b c ≠ Gt → String.compare a c ≠ Gt.
Proof.
  revert b c. induction a as [|x a IH]; intros [|y b] [|z c]; simpl; try done.
  rewrite !ascii_compare_N.
  destruct (N.compare_spec (N_of_ascii x) (N_of_ascii y)) as [Hxy|Hxy|Hxy]; [| |done].
  - rewrite Hxy. destruct (N.compare_spec (N_of_ascii y) (N_of_ascii z)); [|done..].
    apply IH.
  - destruct (N.compare_spec (N_of_ascii y) (N_of_ascii z)) as [Hyz|Hyz|Hyz]; [| |done].
    + rewrite <-Hyz. by rewrite (proj2 (N.compare_lt_iff _ _) Hxy).
    + intros _ _. rewrite (proj2 (N.compare_lt_iff _ _)); [done|]. by etrans.
Qed.

Lemma text_compare_le (a b : string) : text_compare a b ≤ 0 ↔ String.compare a b ≠ Gt.
Proof. unfold text_compare. destruct (String.compare a b); split; (done || lia). Qed.

Lemma text_compare_total (a b : string) : text_compare a b ≤ 0 ∨ text_compare b a ≤ 0.
Proof.
  rewrite !text_compare_le, (String.compare_antisym a b).
  destruct (String.compare b a); simpl; [left|right|left]; done.
Qed.

Lemma text_compare_trans (a b c : string) :
  text_compare a b ≤ 0 → text_compare b c ≤ 0 → text_compare a c ≤ 0.
Proof. rewrite !text_compare_le. apply string_compare_trans. Qed.

(** The lookup answers from the first readable store that holds the
    identifier. *)
Lemma getTaskById_Some_first (taskId : string) (projects : list Project) (t : Task) :
  getTaskById taskId projects = Some t →
  ∃ l1 p l2 d i,
    projects = (l1 ++ p :: l2)%list
    ∧ (∀ q dq j, q ∈ l1 → db q = Some dq → j ∈ issues dq → i_id j ≠ taskId)
    ∧ db p = Some d ∧ i ∈ issues d ∧ i_id i = taskId
    ∧ t = full_task p d i taskId.
Proof.
  induction projects as [|p0 rest IH]; simpl; [done|].
  assert (getTaskById taskId rest = Some t →
          (∀ j d0, db p0 = Some d0 → j ∈ issues d0 → i_id j ≠ taskId) →
          ∃ l1 p l2 d i,
            p0 :: rest = (l1 ++ p :: l2)%list
            ∧ (∀ q dq j, q ∈ l1 → db q = Some dq → j ∈ issues dq → i_id j ≠ taskId)
            ∧ db p = Some d ∧ i ∈ issues d ∧ i_id i = taskId
            ∧ t = full_task p d i taskId) as Hrest.
  { intros (l1 & p & l2 & d & i & -> & Hl1 & H)%IH Hp0.
    exists (p0 :: l1), p, l2, d, i. split; [done|]. split; [|done].
    intros q dq j [->|Hq]%elem_of_cons Hdq Hj; [by eapply Hp0|by eapply Hl1]. }
  destruct (db p0) as [d0|] eqn:Hd0.
  - destruct (get_issue d0 taskId) as [i0|] eqn:Hget.
    + intros [= <-]. apply get_issue_Some in Hget as [Hi0 Hid].
      exists [], p0, rest, d0, i0. split; [done|]. split; [|done].
      intros q dq j Hq. by apply not_elem_of_nil in Hq.
    + intros Ht. apply Hrest; [done|]. intros j d0' [= <-]. by apply get_issue_None.
  - intros Ht. apply Hrest; [done|]. by intros j d0' [=].
Qed.

(** X20: the comments of the task [getTaskById] returns are exactly the
    comment rows of that issue in the store the task was found in (the
    first readable store that holds the identifier), in ascending order of
    the [created_at] text they store. *)
Theorem getTaskById_comments_sorted (taskId : string) (projects : list Project) (t : Task) :
  getTaskById taskId projects = Some t →
  ∃ l1 p l2 d cs,
    projects = (l1 ++ p :: l2)%list
    ∧ (∀ q dq j, q ∈ l1 → db q = Some dq → j ∈ issues dq → i_id j ≠ taskId)
    ∧ db p = Some d ∧ (∃ i, i ∈ issues d ∧ i_id i = taskId)
    ∧ project t = name p ∧ project_path t = path p
    ∧ comments t = Some cs
    ∧ StronglySorted comment_order cs
    ∧ cs ≡ₚ comment_of_row <$> filter (λ c, c_issue_id c = taskId) (comments_table d).
Proof.
  intros (l1 & p & l2 & d & i & Hproj & Hl1 & Hd & Hi & Hid & ->)%getTaskById_Some_first.
  exists l1, p, l2, d. eexists. split; [done|]. split; [done|]. split; [done|].
  split; [by exists i|]. split; [done|]. split; [done|]. split; [done|].
  unfold query_comments. split.
  - apply (StronglySorted_fmap _ (before (λ a b, text_compare (c_created_at a) (c_created_at b)))).
    + intros a b Hab. exact Hab.
    + apply js_sort_sorted; unfold before; intros.
      * apply text_compare_total.
      * by eapply text_compare_trans.
  - fold comment_of_row. by rewrite js_sort_Permutation.
Qed.

Lemma getTaskById_comments_sorted_witness :
  ∃ t cs, getTaskById "jat-aaa" commented_store = Some t
          ∧ comments t = Some cs
          ∧ comment_text <$> cs = ["first"; "second"; "third"].
Proof.
  destruct (getTaskById_comments_sorted "jat-aaa" commented_store _ eq_refl)
    as (l1 & p & l2 & d & cs & _ & _ & _ & _ & _ & _ & Hcs & _).
  eexists _, cs. split; [reflexivity|]. split; [exact Hcs|].
  simpl in Hcs. injection Hcs as <-. reflexivity.
Defined.

(** ** The update route ([PUT]) *)

Import TaskUpdate.




(** A body whose title is [null] passes the test against [undefined] and
    fails in [replace]: no command runs, and the answer is 500. *)
Example PUT_null_title
    (execAsync : list Project → string → option (list Project * string)) :
  PUT execAsync hyphen_store "jomarchy-agent-tools-ab1"
    (Some {| upd_title := Other (Some "null"); upd_description := Absent;
             upd_priority := Other (Some "1"); upd_status := Absent |})
  = ({| put_body := PutError "Failed to update task" None; put_status := 500 |},
     hyphen_store, []).
Proof. reflexivity. Qed.

Lemma escape_quotes_cons (c : ascii) (s : string) :
  String.list_ascii_of_string (escape_quotes (String c s))
  = if Ascii.eqb c dquote
    then backslash :: dquote :: String.list_ascii_of_string (escape_quotes s)
    else c :: String.list_ascii_of_string (escape_quotes s).
Proof. simpl. by destruct (Ascii.eqb c dquote). Qed.

(** X22: in the text the handler puts between the double quotes of
    [--title] and [--description], every double quote of the value is
    preceded by a backslash, and a value without double quotes is passed
    through unchanged. *)
Theorem escape_quotes_guards_quotes (s : string) :
  (∀ n, String.list_ascii_of_string (escape_quotes s) !! n = Some dquote →
        ∃ m, n = S m ∧ String.list_ascii_of_string (escape_quotes s) !! m = Some backslash)
  ∧ (dquote ∉ String.list_ascii_of_string s → escape_quotes s = s).
Proof.
  split.
  - induction s as [|c s IH]; intros n; [simpl; by rewrite lookup_nil|].
    rewrite escape_quotes_cons. destruct (Ascii.eqb_spec c dquote) as [->|Hc].
    + destruct n as [|[|n]]; simpl; [done|by exists 0%nat|].
      intros (m & -> & Hm)%IH. by exists (S (S m)).
    + destruct n as [|n]; simpl; [by intros [= ->]|].
      intros (m & -> & Hm)%IH. by exists (S m).
  - induction s as [|c s IH]; simpl; [done|]. intros [Hc Hs]%not_elem_of_cons.
    destruct (Ascii.eqb_spec c dquote); [done|]. by rewrite IH.
Qed.

(** ** Recent activity ([getBeadsActivities]) *)

Lemma StronglySorted_take {A} (R : relation A) (n : nat) (l : list A) :
  StronglySorted R l → StronglySorted R (take n l).
Proof.
  intros Hl. revert n. induction Hl as [|x l Hl IH Hx]; intros [|n]; simpl; try constructor.
  - apply IH.
  - rewrite Forall_forall in Hx |- *. intros y Hy. apply Hx.
    eapply elem_of_sublist; [exact Hy|apply sublist_take].
Qed.

(** X23: [getBeadsActivities] returns at most ten activities, most recently
    updated first, each made from a task of the list assigned to the agent;
    there are ten of them, or as many as the agent has tasks. *)
Theorem getBeadsActivities_recent (updated_at : Task → Z) (agentName : string)
    (allTasks : option (list Task)) :
  let acts := AgentMail.getBeadsActivities updated_at agentName allTasks in
  (length acts ≤ 10)%nat
  ∧ length acts
    = (10 `min` length (filter (λ t, assignee t = Some agentName) (or_empty allTasks)))%nat
  ∧ StronglySorted (λ a b, AgentMail.ts b ≤ AgentMail.ts a) acts
  ∧ ∀ a, a ∈ acts →
      ∃ t, t ∈ or_empty allTasks ∧ assignee t = Some agentName
           ∧ a = AgentMail.to_activity updated_at t.
Proof.
  intros acts.
  assert (acts = AgentMail.to_activity updated_at
                 <$> take 10 (js_sort (λ a b, updated_at b - updated_at a)
                                (filter (λ t, assignee t = Some agentName)
                                   (or_empty allTasks)))) as ->.
  { unfold acts, AgentMail.getBeadsActivities. by destruct allTasks as [[|t l]|]. }
  set (agentTasks := filter _ _).
  assert (length (js_sort (λ a b, updated_at b - updated_at a) agentTasks) = length agentTasks)
    as Hlen by (apply Permutation_length, js_sort_Permutation).
  split; [|split; [|split]].
  - rewrite length_fmap, length_take. lia.
  - rewrite length_fmap, length_take. lia.
  - apply (StronglySorted_fmap _ (before (λ a b, updated_at b - updated_at a))).
    + intros a b. unfold before. simpl. lia.
    + apply StronglySorted_take, js_sort_sorted; unfold before; intros; lia.
  - intros a (t & -> & Ht)%list_elem_of_fmap. exists t.
    apply (λ H, elem_of_sublist _ _ _ H (sublist_take _ _)) in Ht.
    rewrite js_sort_Permutation in Ht.
    apply list_elem_of_filter in Ht as [Ha Ht]. done.
Qed.
